(** * Crystal Dock: the MPRIS media-controls dock item

    A shallow embedding of [src/view/media_controls.cc] and
    [src/view/media_controls.h].  The widget is a single-threaded controller:
    each slot runs to completion, reads the session bus synchronously and
    mutates the private members of [MediaControls].

    - The members of the class become the record [MediaControls]; a slot is a
      function from the members before the call to the members after it.
    - The session bus is an external collaborator.  It is a parameter of every
      slot: a record [Bus] of the replies the bus gives during that slot
      ([None] for an invalid reply).  Different slot invocations may be given
      different buses.
    - Every request sent to the bus is appended to the [trace] member, so that
      statements such as "this player is never probed" can be made.
    - [int] and [qint64] are integers in [Z] with the two's complement
      wrap-around written out ([to_int], [to_qint64]); [/] is C++ division,
      which truncates ([Z.quot]).
    - A [QDBusInterface*] is [option string]: [None] is [nullptr], [Some s] an
      interface object bound to service [s].  Calling through [nullptr] is the
      only way a slot can fail, and it makes the slot return [None]. *)

From Stdlib Require Import ZArith List String Ascii Bool Lia.
Import ListNotations.

Local Open Scope string_scope.
Local Open Scope Z_scope.

(** ** QString *)

Module QString.

(** [s.isEmpty()] *)
Definition isEmpty (s : string) : bool :=
  match s with
  | EmptyString => true
  | String _ _ => false
  end.

(** [s.startsWith(pat)] *)
Definition startsWith (s pat : string) : bool := String.prefix pat s.

(** [s.contains(pat)] *)
Fixpoint contains (s pat : string) : bool :=
  String.prefix pat s ||
  match s with
  | EmptyString => false
  | String _ s' => contains s' pat
  end.

(** Removal of every occurrence of [pat], scanning left to right; [skip]
    counts the characters of the occurrence being dropped. *)
Fixpoint removeFrom (pat : string) (skip : nat) (s : string) : string :=
  match s with
  | EmptyString => EmptyString
  | String c s' =>
      match skip with
      | S k => removeFrom pat k s'
      | O =>
          if String.prefix pat s
          then removeFrom pat (String.length pat - 1) s'
          else String c (removeFrom pat 0 s')
      end
  end.

(** [s.remove(pat)]: an empty [pat] removes nothing. *)
Definition remove (s pat : string) : string :=
  if isEmpty pat then s else removeFrom pat 0 s.

(** [s.split(sep).first()]: the text before the first occurrence of [sep],
    the whole of [s] when there is none. *)
Fixpoint splitFirst (s sep : string) : string :=
  if String.prefix sep s then EmptyString
  else match s with
       | EmptyString => EmptyString
       | String c s' => String c (splitFirst s' sep)
       end.

(** [s.left(n)] and [s.mid(n)] *)
Definition left (n : nat) (s : string) : string := String.substring 0 n s.
Definition mid (n : nat) (s : string) : string :=
  String.substring n (String.length s - n) s.

(** [s.toUpper()] on ASCII text: the letters a-z are mapped to A-Z and every
    other ASCII character is kept, as Qt does.  Qt maps the characters
    outside ASCII by the Unicode tables, which are not modelled; a statement
    that exhibits an upper-cased text therefore asks for the upper-cased
    character to be ASCII ([asciiText]).  Like Qt's mapping, this one never
    maps a non-empty text to the empty one.  Bus names are ASCII. *)
Definition toUpperChar (c : ascii) : ascii :=
  let n := nat_of_ascii c in
  if (Nat.leb 97 n && Nat.leb n 122)%bool then ascii_of_nat (n - 32) else c.

Fixpoint toUpper (s : string) : string :=
  match s with
  | EmptyString => EmptyString
  | String c s' => String (toUpperChar c) (toUpper s')
  end.

(** The idiom [s.left(1).toUpper() + s.mid(1)]. *)
Definition capitalized (s : string) : string :=
  toUpper (left 1 s) ++ mid 1 s.

(** [list.join(sep)] *)
Definition join (l : list string) (sep : string) : string := String.concat sep l.

End QString.

(** ** Machine integers *)

Definition wrap (bits z : Z) : Z :=
  (z + 2 ^ (bits - 1)) mod 2 ^ bits - 2 ^ (bits - 1).

(** Conversion to [int] (32 bits) and to [qint64]. *)
Definition to_int (z : Z) : Z := wrap 32 z.
Definition to_qint64 (z : Z) : Z := wrap 64 z.

Definition int_range (z : Z) : Prop := - 2 ^ 31 <= z < 2 ^ 31.
Definition qint64_range (z : Z) : Prop := - 2 ^ 63 <= z < 2 ^ 63.

(** Wire times are microseconds, the members hold milliseconds.
    [usToMs]: the [qint64 us / 1000] stored into an [int] member
    (updatePlayerInfo); [msToUs]: [static_cast<qint64>(ms) * 1000]
    (setPosition). *)
Definition usToMs (us : Z) : Z := to_int (Z.quot us 1000).
Definition msToUs (ms : Z) : Z := to_qint64 (ms * 1000).

(** ** The session bus *)

(** The [Metadata] property once converted by the [QVariant] accessors the
    code applies to its entries ([toString], [toStringList], [toLongLong],
    [value<QDBusObjectPath>]). *)
Record Metadata := {
  xesam_title : string;
  xesam_artist : list string;
  xesam_album : string;
  mpris_length : Z;
  mpris_trackid : string
}.

Record Bus := {
  (** [QDBusConnection::sessionBus().interface()] is not null *)
  connectionInterface : bool;
  (** [interface->registeredServiceNames()]; [None] is an invalid reply *)
  registeredServiceNames : option (list string);
  (** [QDBusInterface(service, path, "org.freedesktop.DBus.Properties").isValid()] *)
  propertiesValid : string -> bool;
  (** [QDBusInterface(service, path, "org.mpris.MediaPlayer2.Player").isValid()] *)
  playerValid : string -> bool;
  (** [Get("org.mpris.MediaPlayer2.Player", "PlaybackStatus")], as a string *)
  getPlaybackStatus : string -> option string;
  (** [Get("org.mpris.MediaPlayer2.Player", "Metadata")] *)
  getMetadata : string -> option Metadata;
  (** [Get("org.mpris.MediaPlayer2.Player", "Position")], as a number *)
  getPosition : string -> option Z;
  (** [Get("org.mpris.MediaPlayer2", "Identity")], as a string *)
  getIdentity : string -> option string;
  (** [Get("org.mpris.MediaPlayer2", "DesktopEntry")], as a string *)
  getDesktopEntry : string -> option string
}.

(** [QVariant::toLongLong] yields a [qint64]. *)
Definition toLongLong (z : Z) : Z := to_qint64 z.

(** Methods of [org.mpris.MediaPlayer2.Player] the widget calls. *)
Inductive Method :=
| Play
| Pause
| Previous
| Next
| SetPosition (trackId : string) (positionUs : Z).

(** What the widget asks of the bus. *)
Inductive BusEvent :=
| EvRegisteredServiceNames
    (** service enumeration (updateAvailablePlayers) *)
| EvProbe (service : string)
    (** temporary Properties interface for a status probe
        (connectToBestPlayer, checkForBetterPlayer) *)
| EvDisplayName (service : string)
    (** temporary Properties interface of getPlayerDisplayName *)
| EvBind (service : string)
    (** the two member interfaces are created (connectToPlayer) *)
| EvGet (service property : string)
    (** property read through [propertiesInterface_] *)
| EvCall (service : string) (m : Method)
    (** method call through [playerInterface_] *).

(** ** The members of [MediaControls] *)

Inductive PlaybackStatus := Playing | Paused | Stopped.

Definition PlaybackStatus_eqb (a b : PlaybackStatus) : bool :=
  match a, b with
  | Playing, Playing | Paused, Paused | Stopped, Stopped => true
  | _, _ => false
  end.

(** "Current player state." *)
Record PlayerState := {
  currentPlayer_ : string;
  currentTitle_ : string;
  currentArtist_ : string;
  currentAlbum_ : string;
  playbackStatus_ : PlaybackStatus;
  positionMs_ : Z;
  durationMs_ : Z;
  hasPosition_ : bool
}.

Record QAction := {
  text : string;
  enabled : bool;
  checkable : bool;
  checked : bool;
  data : string
}.

Record QSlider := {
  value : Z;
  sliderEnabled : bool
}.

(** "Context menu." *)
Record ContextMenu := {
  playerSelectionMenu_ : list QAction;
  playPauseAction_ : QAction;
  previousAction_ : QAction;
  nextAction_ : QAction;
  positionSlider_ : QSlider;
  trackInfoLabel_ : string
}.

Record MediaControls := {
  state : PlayerState;
  playerInterface_ : option string;
  propertiesInterface_ : option string;
  menu_ : ContextMenu;
  availablePlayers_ : list string;
  trace : list BusEvent
}.

(** The member initialisers of the header, and what [disconnectFromPlayer]
    assigns. *)
Definition emptyState : PlayerState :=
  {| currentPlayer_ := "";
     currentTitle_ := "";
     currentArtist_ := "";
     currentAlbum_ := "";
     playbackStatus_ := Stopped;
     positionMs_ := 0;
     durationMs_ := 0;
     hasPosition_ := false |}.

(** *** Member updates *)

Definition setEnabled (b : bool) (a : QAction) : QAction :=
  {| text := text a; enabled := b; checkable := checkable a;
     checked := checked a; data := data a |}.

Definition setText (t : string) (a : QAction) : QAction :=
  {| text := t; enabled := enabled a; checkable := checkable a;
     checked := checked a; data := data a |}.

Definition with_state (st : PlayerState) (mc : MediaControls) : MediaControls :=
  {| state := st;
     playerInterface_ := playerInterface_ mc;
     propertiesInterface_ := propertiesInterface_ mc;
     menu_ := menu_ mc;
     availablePlayers_ := availablePlayers_ mc;
     trace := trace mc |}.

Definition with_interfaces (player properties : option string)
    (mc : MediaControls) : MediaControls :=
  {| state := state mc;
     playerInterface_ := player;
     propertiesInterface_ := properties;
     menu_ := menu_ mc;
     availablePlayers_ := availablePlayers_ mc;
     trace := trace mc |}.

Definition with_menu (m : ContextMenu) (mc : MediaControls) : MediaControls :=
  {| state := state mc;
     playerInterface_ := playerInterface_ mc;
     propertiesInterface_ := propertiesInterface_ mc;
     menu_ := m;
     availablePlayers_ := availablePlayers_ mc;
     trace := trace mc |}.

Definition with_availablePlayers (l : list string)
    (mc : MediaControls) : MediaControls :=
  {| state := state mc;
     playerInterface_ := playerInterface_ mc;
     propertiesInterface_ := propertiesInterface_ mc;
     menu_ := menu_ mc;
     availablePlayers_ := l;
     trace := trace mc |}.

(** More requests on the bus. *)
Definition emits (es : list BusEvent) (mc : MediaControls) : MediaControls :=
  {| state := state mc;
     playerInterface_ := playerInterface_ mc;
     propertiesInterface_ := propertiesInterface_ mc;
     menu_ := menu_ mc;
     availablePlayers_ := availablePlayers_ mc;
     trace := (trace mc ++ es)%list |}.

Definition emit (e : BusEvent) (mc : MediaControls) : MediaControls :=
  emits [e] mc.

Definition with_currentPlayer (s : string) (st : PlayerState) : PlayerState :=
  {| currentPlayer_ := s;
     currentTitle_ := currentTitle_ st;
     currentArtist_ := currentArtist_ st;
     currentAlbum_ := currentAlbum_ st;
     playbackStatus_ := playbackStatus_ st;
     positionMs_ := positionMs_ st;
     durationMs_ := durationMs_ st;
     hasPosition_ := hasPosition_ st |}.

Definition with_playbackStatus (p : PlaybackStatus) (st : PlayerState) : PlayerState :=
  {| currentPlayer_ := currentPlayer_ st;
     currentTitle_ := currentTitle_ st;
     currentArtist_ := currentArtist_ st;
     currentAlbum_ := currentAlbum_ st;
     playbackStatus_ := p;
     positionMs_ := positionMs_ st;
     durationMs_ := durationMs_ st;
     hasPosition_ := hasPosition_ st |}.

Definition with_positionMs (p : Z) (st : PlayerState) : PlayerState :=
  {| currentPlayer_ := currentPlayer_ st;
     currentTitle_ := currentTitle_ st;
     currentArtist_ := currentArtist_ st;
     currentAlbum_ := currentAlbum_ st;
     playbackStatus_ := playbackStatus_ st;
     positionMs_ := p;
     durationMs_ := durationMs_ st;
     hasPosition_ := hasPosition_ st |}.

Definition with_metadata (title artist album : string) (duration : Z)
    (hasPosition : bool) (st : PlayerState) : PlayerState :=
  {| currentPlayer_ := currentPlayer_ st;
     currentTitle_ := title;
     currentArtist_ := artist;
     currentAlbum_ := album;
     playbackStatus_ := playbackStatus_ st;
     positionMs_ := positionMs_ st;
     durationMs_ := duration;
     hasPosition_ := hasPosition |}.

Definition with_playerSelectionMenu (l : list QAction) (m : ContextMenu) : ContextMenu :=
  {| playerSelectionMenu_ := l;
     playPauseAction_ := playPauseAction_ m;
     previousAction_ := previousAction_ m;
     nextAction_ := nextAction_ m;
     positionSlider_ := positionSlider_ m;
     trackInfoLabel_ := trackInfoLabel_ m |}.

Definition with_playPauseAction (a : QAction) (m : ContextMenu) : ContextMenu :=
  {| playerSelectionMenu_ := playerSelectionMenu_ m;
     playPauseAction_ := a;
     previousAction_ := previousAction_ m;
     nextAction_ := nextAction_ m;
     positionSlider_ := positionSlider_ m;
     trackInfoLabel_ := trackInfoLabel_ m |}.

Definition with_positionSlider (s : QSlider) (m : ContextMenu) : ContextMenu :=
  {| playerSelectionMenu_ := playerSelectionMenu_ m;
     playPauseAction_ := playPauseAction_ m;
     previousAction_ := previousAction_ m;
     nextAction_ := nextAction_ m;
     positionSlider_ := s;
     trackInfoLabel_ := trackInfoLabel_ m |}.

Definition with_trackInfoLabel (t : string) (m : ContextMenu) : ContextMenu :=
  {| playerSelectionMenu_ := playerSelectionMenu_ m;
     playPauseAction_ := playPauseAction_ m;
     previousAction_ := previousAction_ m;
     nextAction_ := nextAction_ m;
     positionSlider_ := positionSlider_ m;
     trackInfoLabel_ := t |}.

(** [previousAction_], [playPauseAction_] and [nextAction_] enabled or
    disabled together. *)
Definition setControlsEnabled (b : bool) (m : ContextMenu) : ContextMenu :=
  {| playerSelectionMenu_ := playerSelectionMenu_ m;
     playPauseAction_ := setEnabled b (playPauseAction_ m);
     previousAction_ := setEnabled b (previousAction_ m);
     nextAction_ := setEnabled b (nextAction_ m);
     positionSlider_ := positionSlider_ m;
     trackInfoLabel_ := trackInfoLabel_ m |}.

Definition setSliderEnabled (b : bool) (s : QSlider) : QSlider :=
  {| value := value s; sliderEnabled := b |}.

(** [QSlider::setValue] bounds the value by the range, here [0, 100]. *)
Definition setValue (v : Z) (s : QSlider) : QSlider :=
  {| value := Z.max 0 (Z.min v 100); sliderEnabled := sliderEnabled s |}.

(** ** The slots and private methods, in dependency order *)

Definition kPrefix : string := "org.mpris.MediaPlayer2.".

Definition newline : string := String (ascii_of_nat 10) EmptyString.

Definition parsePlaybackStatus (status : string) : PlaybackStatus :=
  if String.eqb status "Playing" then Playing
  else if String.eqb status "Paused" then Paused
  else Stopped.

(** getPlayerDisplayName, first block: the Identity property, then the
    DesktopEntry property, through a temporary Properties interface; [None]
    when the block falls through. *)
Definition nameFromProperties (bus : Bus) (service : string) : option string :=
  if propertiesValid bus service then
    let identity :=
      match getIdentity bus service with
      | Some identity =>
          if negb (QString.isEmpty identity) then Some identity else None
      | None => None
      end in
    match identity with
    | Some identity => Some identity
    | None =>
        (* Try getting DesktopEntry for fallback *)
        match getDesktopEntry bus service with
        | Some desktop =>
            if negb (QString.isEmpty desktop)
            then Some (QString.capitalized desktop)
            else None
        | None => None
        end
    end
  else None.

(** getPlayerDisplayName, second block: "Fallback to parsing service name". *)
Definition nameFromService (service : string) : string :=
  let displayName := QString.remove service kPrefix in
  (* Handle common patterns *)
  if QString.startsWith displayName "firefox.instance" then "Firefox"
  else if QString.startsWith displayName "chromium.instance" then "Chromium"
  else if QString.startsWith displayName "chrome.instance" then "Chrome"
  else if QString.startsWith displayName "spotify.instance" then "Spotify"
  else if QString.startsWith displayName "vlc.instance" then "VLC"
  else if QString.contains displayName ".instance" then
    (* Generic instance pattern - extract base name *)
    let baseName := QString.splitFirst displayName ".instance" in
    QString.capitalized baseName
  else
    (* Final fallback - capitalize first letter *)
    QString.capitalized displayName.

Definition getPlayerDisplayName (bus : Bus) (service : string) : string :=
  match nameFromProperties bus service with
  | Some name => name
  | None => nameFromService service
  end.

Definition disconnectFromPlayer (mc : MediaControls) : MediaControls :=
  let mc := with_interfaces None None mc in
  let mc := with_state emptyState mc in
  (* Disable controls *)
  let m := setControlsEnabled false (menu_ mc) in
  let m := with_positionSlider (setSliderEnabled false (positionSlider_ m)) m in
  let m := with_trackInfoLabel "No media playing" m in
  with_menu m mc.

(** The four steps of updatePlayerInfo on the bound session [service]. *)

(** "Get playback status" *)
Definition pollStatus (bus : Bus) (service : string)
    (mc : MediaControls) : MediaControls :=
  let mc := emit (EvGet service "PlaybackStatus") mc in
  match getPlaybackStatus bus service with
  | Some reply =>
      let status := parsePlaybackStatus reply in
      let label := if PlaybackStatus_eqb status Playing then "Pause" else "Play" in
      with_menu
        (with_playPauseAction (setText label (playPauseAction_ (menu_ mc))) (menu_ mc))
        (with_state (with_playbackStatus status (state mc)) mc)
  | None => mc
  end.

(** "Get metadata" *)
Definition pollMetadata (bus : Bus) (service : string)
    (mc : MediaControls) : MediaControls :=
  let mc := emit (EvGet service "Metadata") mc in
  match getMetadata bus service with
  | Some metadata =>
      (* Duration in microseconds, convert to milliseconds *)
      let durationUs := toLongLong (mpris_length metadata) in
      let durationMs := usToMs durationUs in
      let hasPosition := 0 <? durationMs in
      with_menu
        (with_positionSlider
           (setSliderEnabled hasPosition (positionSlider_ (menu_ mc))) (menu_ mc))
        (with_state
           (with_metadata (xesam_title metadata)
              (QString.join (xesam_artist metadata) ", ")
              (xesam_album metadata) durationMs hasPosition (state mc)) mc)
  | None => mc
  end.

(** "Get position if available".  The slider percentage is computed in
    [int]. *)
Definition pollPosition (bus : Bus) (service : string)
    (mc : MediaControls) : MediaControls :=
  if hasPosition_ (state mc) then
    let mc := emit (EvGet service "Position") mc in
    match getPosition bus service with
    | Some reply =>
        let positionUs := toLongLong reply in
        let positionMs := usToMs positionUs in
        let mc := with_state (with_positionMs positionMs (state mc)) mc in
        (* Update slider without triggering signal *)
        if 0 <? durationMs_ (state mc) then
          let percentage :=
            Z.quot (to_int (positionMs * 100)) (durationMs_ (state mc)) in
          with_menu
            (with_positionSlider
               (setValue percentage (positionSlider_ (menu_ mc))) (menu_ mc)) mc
        else mc
    | None => mc
    end
  else mc.

(** "Update track info label" *)
Definition updateTrackInfoLabel (mc : MediaControls) : MediaControls :=
  let trackInfo :=
    if negb (QString.isEmpty (currentTitle_ (state mc))) then
      if negb (QString.isEmpty (currentArtist_ (state mc)))
      then currentTitle_ (state mc) ++ newline ++ currentArtist_ (state mc)
      else currentTitle_ (state mc)
    else "No media playing" in
  with_menu (with_trackInfoLabel trackInfo (menu_ mc)) mc.

Definition updatePlayerInfo (bus : Bus) (mc : MediaControls) : MediaControls :=
  match playerInterface_ mc, propertiesInterface_ mc with
  | Some _, Some service =>
      updateTrackInfoLabel
        (pollPosition bus service
           (pollMetadata bus service
              (pollStatus bus service mc)))
  | _, _ => mc
  end.

(** An entry of the "Select Player" submenu, and its placeholder. *)
Definition playerAction (bus : Bus) (currentPlayer service : string) : QAction :=
  {| text := getPlayerDisplayName bus service;
     enabled := true;
     checkable := true;
     checked := String.eqb service currentPlayer;
     data := service |}.

Definition noPlayersAction : QAction :=
  {| text := "No players available";
     enabled := false;
     checkable := false;
     checked := false;
     data := "" |}.

Definition isMprisService (service : string) : bool :=
  QString.startsWith service kPrefix.

Definition updateAvailablePlayers (bus : Bus) (mc : MediaControls) : MediaControls :=
  let mc := with_availablePlayers [] mc in
  if negb (connectionInterface bus) then mc
  else
    let mc := emit EvRegisteredServiceNames mc in
    match registeredServiceNames bus with
    | None => mc
    | Some names =>
        let mc := with_availablePlayers (filter isMprisService names) mc in
        (* Update player selection menu *)
        let mc := emits (map EvDisplayName (availablePlayers_ mc)) mc in
        let actions :=
          map (playerAction bus (currentPlayer_ (state mc))) (availablePlayers_ mc) in
        let actions :=
          match availablePlayers_ mc with
          | [] => (actions ++ [noPlayersAction])%list
          | _ :: _ => actions
          end in
        with_menu (with_playerSelectionMenu actions (menu_ mc)) mc
    end.

Definition connectToPlayer (bus : Bus) (service : string)
    (mc : MediaControls) : MediaControls :=
  let mc := disconnectFromPlayer mc in
  let mc := with_state (with_currentPlayer service (state mc)) mc in
  let mc := emit (EvBind service) mc in
  let mc := with_interfaces (Some service) (Some service) mc in
  if negb (playerValid bus service) then disconnectFromPlayer mc
  else
    (* Enable controls *)
    let mc := with_menu (setControlsEnabled true (menu_ mc)) mc in
    (* Update player selection menu *)
    let mc := updateAvailablePlayers bus mc in
    (* Get initial state *)
    updatePlayerInfo bus mc.

(** The status probe of connectToBestPlayer and checkForBetterPlayer: a
    temporary Properties interface, skipped when invalid, then the
    PlaybackStatus query, skipped when its reply is invalid. *)
Definition probeStatus (bus : Bus) (service : string) : option PlaybackStatus :=
  if negb (propertiesValid bus service) then None
  else match getPlaybackStatus bus service with
       | None => None
       | Some reply => Some (parsePlaybackStatus reply)
       end.

(** The [for] loop of connectToBestPlayer with its locals [bestPlayer] and
    [bestStatus], and the statement that follows the loop. *)
Fixpoint bestPlayerLoop (bus : Bus) (services : list string)
    (bestPlayer : string) (bestStatus : PlaybackStatus)
    (mc : MediaControls) : MediaControls :=
  match services with
  | [] =>
      (* Connect to the best player we found *)
      if negb (QString.isEmpty bestPlayer) then connectToPlayer bus bestPlayer mc
      else mc
  | service :: rest =>
      let mc := emit (EvProbe service) mc in
      match probeStatus bus service with
      | None => bestPlayerLoop bus rest bestPlayer bestStatus mc
      | Some status =>
          (* Priority: Playing > Paused > Stopped *)
          if PlaybackStatus_eqb status Playing then
            (* Found a playing player - use it immediately *)
            connectToPlayer bus service mc
          else if (PlaybackStatus_eqb status Paused
                   && PlaybackStatus_eqb bestStatus Stopped)%bool then
            (* Prefer paused over stopped *)
            bestPlayerLoop bus rest service status mc
          else if QString.isEmpty bestPlayer then
            (* First player we found *)
            bestPlayerLoop bus rest service status mc
          else bestPlayerLoop bus rest bestPlayer bestStatus mc
      end
  end.

Definition connectToBestPlayer (bus : Bus) (mc : MediaControls) : MediaControls :=
  match availablePlayers_ mc with
  | [] => mc
  | [only] =>
      (* If only one player, use it *)
      connectToPlayer bus only mc
  | _ :: _ :: _ =>
      (* Multiple players - find the best one to connect to *)
      bestPlayerLoop bus (availablePlayers_ mc) "" Stopped mc
  end.

(** The [for] loop of checkForBetterPlayer. *)
Fixpoint betterPlayerLoop (bus : Bus) (services : list string)
    (mc : MediaControls) : MediaControls :=
  match services with
  | [] => mc
  | service :: rest =>
      (* Skip current player *)
      if String.eqb service (currentPlayer_ (state mc)) then
        betterPlayerLoop bus rest mc
      else
        let mc := emit (EvProbe service) mc in
        match probeStatus bus service with
        | None => betterPlayerLoop bus rest mc
        | Some status =>
            (* If we find a playing player, switch to it *)
            if PlaybackStatus_eqb status Playing then connectToPlayer bus service mc
            else betterPlayerLoop bus rest mc
        end
  end.

Definition checkForBetterPlayer (bus : Bus) (mc : MediaControls) : MediaControls :=
  (* Only check for better players if current one is not playing *)
  if PlaybackStatus_eqb (playbackStatus_ (state mc)) Playing then mc
  else betterPlayerLoop bus (availablePlayers_ mc) mc.

Definition refreshMediaInfo (bus : Bus) (mc : MediaControls) : MediaControls :=
  match playerInterface_ mc with
  | None => mc
  | Some _ =>
      let mc := updatePlayerInfo bus mc in
      (* Check if we should switch to a better player *)
      if (Nat.ltb 1 (List.length (availablePlayers_ mc))
          && negb (PlaybackStatus_eqb (playbackStatus_ (state mc)) Playing))%bool
      then checkForBetterPlayer bus mc
      else mc
  end.

Definition onPlayPause (mc : MediaControls) : MediaControls :=
  match playerInterface_ mc with
  | None => mc
  | Some player =>
      if PlaybackStatus_eqb (playbackStatus_ (state mc)) Playing
      then emit (EvCall player Pause) mc
      else emit (EvCall player Play) mc
  end.

Definition onPrevious (mc : MediaControls) : MediaControls :=
  match playerInterface_ mc with
  | None => mc
  | Some player => emit (EvCall player Previous) mc
  end.

Definition onNext (mc : MediaControls) : MediaControls :=
  match playerInterface_ mc with
  | None => mc
  | Some player => emit (EvCall player Next) mc
  end.

(** [setPosition] tests [playerInterface_] only and then calls through
    [propertiesInterface_]: [None] is the call through a null pointer. *)
Definition setPosition (bus : Bus) (positionMs : Z)
    (mc : MediaControls) : option MediaControls :=
  match playerInterface_ mc with
  | None => Some mc
  | Some player =>
      match propertiesInterface_ mc with
      | None => None
      | Some properties =>
          (* MPRIS SetPosition takes track ID and position in microseconds *)
          let mc := emit (EvGet properties "Metadata") mc in
          match getMetadata bus properties with
          | Some metadata =>
              let trackId := mpris_trackid metadata in
              let positionUs := msToUs positionMs in
              Some (emit (EvCall player (SetPosition trackId positionUs)) mc)
          | None => Some mc
          end
      end
  end.

(** The argument onPositionSliderChanged passes to setPosition:
    [positionUs = (static_cast<qint64>(value) * durationMs_ * 1000) / 100],
    then [positionUs / 1000] converted to the [int] parameter. *)
Definition seekTargetMs (value durationMs : Z) : Z :=
  (* Convert percentage to microseconds (MPRIS uses microseconds) *)
  let positionUs :=
    Z.quot (to_qint64 (to_qint64 (value * durationMs) * 1000)) 100 in
  to_int (Z.quot positionUs 1000).

Definition onPositionSliderChanged (bus : Bus) (value : Z)
    (mc : MediaControls) : option MediaControls :=
  match playerInterface_ mc with
  | None => Some mc
  | Some _ =>
      if negb (hasPosition_ (state mc)) then Some mc
      else setPosition bus (seekTargetMs value (durationMs_ (state mc))) mc
  end.

(** [sender] is the action that emitted [triggered], if any. *)
Definition onPlayerSelected (bus : Bus) (sender : option QAction)
    (mc : MediaControls) : MediaControls :=
  match sender with
  | None => mc
  | Some action => connectToPlayer bus (data action) mc
  end.

Definition onDBusServiceRegistered (bus : Bus) (service : string)
    (mc : MediaControls) : MediaControls :=
  if QString.startsWith service kPrefix then
    let mc := updateAvailablePlayers bus mc in
    (* Smart auto-connect logic *)
    if (QString.isEmpty (currentPlayer_ (state mc))
        && negb (Nat.eqb (List.length (availablePlayers_ mc)) 0))%bool
    then connectToBestPlayer bus mc
    else mc
  else mc.

Definition onDBusServiceUnregistered (bus : Bus) (service : string)
    (mc : MediaControls) : MediaControls :=
  if QString.startsWith service kPrefix then
    let mc :=
      if String.eqb service (currentPlayer_ (state mc)) then
        let mc := disconnectFromPlayer mc in
        (* Try to connect to the best available player *)
        let mc := updateAvailablePlayers bus mc in
        if negb (Nat.eqb (List.length (availablePlayers_ mc)) 0)
        then connectToBestPlayer bus mc
        else mc
      else mc in
    updateAvailablePlayers bus mc
  else mc.

Inductive MouseButton := LeftButton | RightButton | MiddleButton | OtherButton.

(** Showing the popup menu changes no member. *)
Definition mousePressEvent (button : MouseButton) (mc : MediaControls) : MediaControls :=
  match button with
  | LeftButton =>
      if QString.isEmpty (currentPlayer_ (state mc)) then mc
      else onPlayPause mc
  | RightButton => mc
  | MiddleButton => onNext mc
  | OtherButton => mc
  end.

Definition getLabel (bus : Bus) (mc : MediaControls) : string :=
  if QString.isEmpty (currentPlayer_ (state mc)) then "Media Controls: No player"
  else if negb (QString.isEmpty (currentTitle_ (state mc))) then
    if negb (QString.isEmpty (currentArtist_ (state mc)))
    then currentTitle_ (state mc) ++ " - " ++ currentArtist_ (state mc)
    else currentTitle_ (state mc)
  else "Media Controls: " ++ getPlayerDisplayName bus (currentPlayer_ (state mc)).

(** The members after the initialiser list and createMenu. *)
Definition createMenu : ContextMenu :=
  let action t :=
    {| text := t; enabled := false; checkable := false; checked := false;
       data := "" |} in
  {| playerSelectionMenu_ := [];
     playPauseAction_ := action "Play";
     previousAction_ := action "Previous";
     nextAction_ := action "Next";
     positionSlider_ := {| value := 0; sliderEnabled := false |};
     trackInfoLabel_ := "No media playing" |}.

Definition initial : MediaControls :=
  {| state := emptyState;
     playerInterface_ := None;
     propertiesInterface_ := None;
     menu_ := createMenu;
     availablePlayers_ := [];
     trace := [] |}.

(** The constructor. *)
Definition construct (bus : Bus) : MediaControls :=
  let mc := initial in
  (* Initial scan for players *)
  let mc := updateAvailablePlayers bus mc in
  (* Connect to best available player on startup *)
  if negb (Nat.eqb (List.length (availablePlayers_ mc)) 0)
  then connectToBestPlayer bus mc
  else mc.

(** ** Reading the trace *)

(** The services that were status-probed, and those a connection was
    attempted to, in order. *)
Definition probes (es : list BusEvent) : list string :=
  flat_map (fun e => match e with EvProbe s => [s] | _ => [] end) es.

Definition binds (es : list BusEvent) : list string :=
  flat_map (fun e => match e with EvBind s => [s] | _ => [] end) es.

(** The playback commands sent to a player interface, in order. *)
Definition calls (es : list BusEvent) : list (string * Method) :=
  flat_map (fun e => match e with EvCall s m => [(s, m)] | _ => [] end) es.

(** Outcomes of a probe. *)
Definition probedPlaying (bus : Bus) (service : string) : Prop :=
  probeStatus bus service = Some Playing.
Definition probedPaused (bus : Bus) (service : string) : Prop :=
  probeStatus bus service = Some Paused.
Definition probedStopped (bus : Bus) (service : string) : Prop :=
  probeStatus bus service = Some Stopped.
Definition probeFailed (bus : Bus) (service : string) : Prop :=
  probeStatus bus service = None.

(** ** The control loop

    The public slots and event handlers, as the inputs of a single-threaded
    loop: each runs to completion before the next one starts. *)

Inductive Input :=
| InRefreshMediaInfo
| InPlayPause
| InPrevious
| InNext
| InPositionSliderChanged (value : Z)
| InPlayerSelected (sender : option QAction)
| InServiceRegistered (service : string)
| InServiceUnregistered (service : string)
| InMousePress (button : MouseButton).

Definition handle (bus : Bus) (input : Input)
    (mc : MediaControls) : option MediaControls :=
  match input with
  | InRefreshMediaInfo => Some (refreshMediaInfo bus mc)
  | InPlayPause => Some (onPlayPause mc)
  | InPrevious => Some (onPrevious mc)
  | InNext => Some (onNext mc)
  | InPositionSliderChanged value => onPositionSliderChanged bus value mc
  | InPlayerSelected sender => Some (onPlayerSelected bus sender mc)
  | InServiceRegistered service => Some (onDBusServiceRegistered bus service mc)
  | InServiceUnregistered service => Some (onDBusServiceUnregistered bus service mc)
  | InMousePress button => Some (mousePressEvent button mc)
  end.

(** onPlayerSelected is connected to the [triggered] signal of the player
    entries of the "Select Player" submenu only (updateAvailablePlayers); the
    disabled placeholder entry is not connected. *)
Definition admissible (mc : MediaControls) (input : Input) : Prop :=
  match input with
  | InPlayerSelected (Some action) =>
      In action (playerSelectionMenu_ (menu_ mc)) /\ enabled action = true
  | _ => True
  end.

(** The members at the entry of a slot: after the constructor, or after an
    earlier slot has returned. *)
Inductive Reachable : MediaControls -> Prop :=
| Reachable_construct bus : Reachable (construct bus)
| Reachable_handle bus input mc mc' :
    Reachable mc ->
    admissible mc input ->
    handle bus input mc = Some mc' ->
    Reachable mc'.

(** What holds of the members between slots. *)
Record Inv (mc : MediaControls) : Prop := {
  inv_handles : propertiesInterface_ mc = playerInterface_ mc;
  inv_active :
    playerInterface_ mc
    = if QString.isEmpty (currentPlayer_ (state mc)) then None
      else Some (currentPlayer_ (state mc));
  inv_players : Forall (fun s => isMprisService s = true) (availablePlayers_ mc);
  inv_menu :
    Forall (fun a => enabled a = true -> isMprisService (data a) = true)
           (playerSelectionMenu_ (menu_ mc));
  inv_hasPosition :
    hasPosition_ (state mc) = (0 <? durationMs_ (state mc));
  inv_duration : int_range (durationMs_ (state mc));
  inv_position : int_range (positionMs_ (state mc))
}.

(** ** Sample sessions

    Concrete buses and members on which the statements below are evaluated. *)

Definition sampleMetadata : Metadata :=
  {| xesam_title := "So What";
     xesam_artist := ["Miles Davis"; "John Coltrane"];
     xesam_album := "Kind of Blue";
     mpris_length := 562000000;
     mpris_trackid := "/org/mpris/MediaPlayer2/Track/1" |}.

(** A bus on which each listed player is registered and valid, answers the
    status query with the given reply ([None]: no valid reply), and serves
    [sampleMetadata] at position 61.5 s; it has no Identity or DesktopEntry. *)
Definition sampleBus (players : list (string * option string)) : Bus :=
  let known s := existsb (String.eqb s) (map fst players) in
  {| connectionInterface := true;
     registeredServiceNames := Some ("org.freedesktop.DBus" :: map fst players);
     propertiesValid := known;
     playerValid := known;
     getPlaybackStatus := fun s =>
       match find (fun p => String.eqb s (fst p)) players with
       | Some p => snd p
       | None => None
       end;
     getMetadata := fun s => if known s then Some sampleMetadata else None;
     getPosition := fun s => if known s then Some 61500999 else None;
     getIdentity := fun _ => None;
     getDesktopEntry := fun _ => None |}.

(** A bus on which every status query fails while metadata and position are
    served, and one on which no player interface is valid. *)
Definition statusDownBus : Bus :=
  {| connectionInterface := true;
     registeredServiceNames := Some ["org.mpris.MediaPlayer2.vlc"];
     propertiesValid := fun _ => true;
     playerValid := fun _ => true;
     getPlaybackStatus := fun _ => None;
     getMetadata := fun _ => Some sampleMetadata;
     getPosition := fun _ => Some 61500999;
     getIdentity := fun _ => None;
     getDesktopEntry := fun _ => None |}.

Definition bindFailsBus : Bus :=
  {| connectionInterface := true;
     registeredServiceNames := Some ["org.mpris.MediaPlayer2.vlc"];
     propertiesValid := fun _ => true;
     playerValid := fun _ => false;
     getPlaybackStatus := fun _ => Some "Playing";
     getMetadata := fun _ => Some sampleMetadata;
     getPosition := fun _ => Some 61500999;
     getIdentity := fun _ => None;
     getDesktopEntry := fun _ => None |}.

Definition vlc : string := "org.mpris.MediaPlayer2.vlc".
Definition spotify : string := "org.mpris.MediaPlayer2.spotify".
Definition firefox : string := "org.mpris.MediaPlayer2.firefox.instance4242".

(** The common patterns of getPlayerDisplayName read as a table, tried in
    order against the identifier with the prefix removed. *)
Definition wellKnownPlayers : list (string * string) :=
  [("firefox.instance", "Firefox");
   ("chromium.instance", "Chromium");
   ("chrome.instance", "Chrome");
   ("spotify.instance", "Spotify");
   ("vlc.instance", "VLC")].




(** The registered candidates other than the active session. *)
Definition peers (mc : MediaControls) : list string :=
  filter (fun s => negb (String.eqb s (currentPlayer_ (state mc))))
         (availablePlayers_ mc).

(** The requests of one rescan (updateAvailablePlayers) and of one poll
    (updatePlayerInfo) that ends with has-position [hasPosition]. *)
Definition rescanEvents (bus : Bus) : list BusEvent :=
  if connectionInterface bus then
    EvRegisteredServiceNames ::
    match registeredServiceNames bus with
    | Some names => map EvDisplayName (filter isMprisService names)
    | None => []
    end
  else [].

Definition pollEvents (service : string) (hasPosition : bool) : list BusEvent :=
  EvGet service "PlaybackStatus" :: EvGet service "Metadata" ::
  (if hasPosition then [EvGet service "Position"] else []).

(** The states of the session controller, and what a consumer of the state
    model can observe: the state model and whether a session is bound. *)
Inductive Connection := Disconnected | Connected.

Definition connection (mc : MediaControls) : Connection :=
  match playerInterface_ mc with
  | Some _ => Connected
  | None => Disconnected
  end.

Definition observable (mc : MediaControls) : PlayerState * Connection :=
  (state mc, connection mc).


(** Requests that are neither a status probe nor a connection attempt. *)
Definition quiet (es : list BusEvent) : Prop := probes es = [] /\ binds es = [].

(** ** What the widgets should show

    Used to state how the registry and the widgets follow the bus and the
    state model. *)

(** The players a rescan finds on the bus. *)
Definition playersOn (bus : Bus) : list string :=
  if connectionInterface bus then
    match registeredServiceNames bus with
    | Some names => filter isMprisService names
    | None => []
    end
  else [].

Definition transportUp (bus : Bus) : bool :=
  connectionInterface bus &&
  match registeredServiceNames bus with Some _ => true | None => false end.

(** The "Select Player" submenu for a list of players, the check mark on
    [current]. *)
Definition submenuOf (bus : Bus) (current : string) (players : list string)
    : list QAction :=
  match players with
  | [] => [noPlayersAction]
  | _ :: _ => map (playerAction bus current) players
  end.

(** The registry holds the players on the bus and, when the bus could be
    enumerated, the submenu lists them with the check mark on the active
    session. *)
Definition Fresh (bus : Bus) (mc : MediaControls) : Prop :=
  availablePlayers_ mc = playersOn bus
  /\ (transportUp bus = true ->
      playerSelectionMenu_ (menu_ mc)
      = submenuOf bus (currentPlayer_ (state mc)) (playersOn bus)).

(** The text of the track label for a state model. *)
Definition trackInfo (st : PlayerState) : string :=
  if negb (QString.isEmpty (currentTitle_ st)) then
    if negb (QString.isEmpty (currentArtist_ st))
    then currentTitle_ st ++ newline ++ currentArtist_ st
    else currentTitle_ st
  else "No media playing".

(** The widgets agree with the members they display, and an idle controller
    holds the empty state model. *)
Record Consistent (mc : MediaControls) : Prop := {
  con_idle : currentPlayer_ (state mc) = "" -> state mc = emptyState;
  con_previous :
    enabled (previousAction_ (menu_ mc))
    = match playerInterface_ mc with Some _ => true | None => false end;
  con_playPause :
    enabled (playPauseAction_ (menu_ mc))
    = match playerInterface_ mc with Some _ => true | None => false end;
  con_next :
    enabled (nextAction_ (menu_ mc))
    = match playerInterface_ mc with Some _ => true | None => false end;
  con_slider :
    sliderEnabled (positionSlider_ (menu_ mc)) = hasPosition_ (state mc);
  con_value : 0 <= value (positionSlider_ (menu_ mc)) <= 100;
  con_label : trackInfoLabel_ (menu_ mc) = trackInfo (state mc)
}.

(** The part of [Consistent] about the controls and the slider. *)
Definition WidgetsAgree (mc : MediaControls) : Prop :=
  enabled (previousAction_ (menu_ mc))
  = match playerInterface_ mc with Some _ => true | None => false end
  /\ enabled (playPauseAction_ (menu_ mc))
     = match playerInterface_ mc with Some _ => true | None => false end
  /\ enabled (nextAction_ (menu_ mc))
     = match playerInterface_ mc with Some _ => true | None => false end
  /\ sliderEnabled (positionSlider_ (menu_ mc)) = hasPosition_ (state mc)
  /\ 0 <= value (positionSlider_ (menu_ mc)) <= 100.

(** What the three queries of updatePlayerInfo write into the state model,
    read off pollStatus, pollMetadata and pollPosition. *)
Definition polledState (bus : Bus) (service : string) (st : PlayerState)
    : PlayerState :=
  let st :=
    match getPlaybackStatus bus service with
    | Some reply => with_playbackStatus (parsePlaybackStatus reply) st
    | None => st
    end in
  let st :=
    match getMetadata bus service with
    | Some metadata =>
        with_metadata (xesam_title metadata)
          (QString.join (xesam_artist metadata) ", ") (xesam_album metadata)
          (usToMs (toLongLong (mpris_length metadata)))
          (0 <? usToMs (toLongLong (mpris_length metadata))) st
    | None => st
    end in
  if hasPosition_ st then
    match getPosition bus service with
    | Some reply => with_positionMs (usToMs (toLongLong reply)) st
    | None => st
    end
  else st.

(** [s] contains a dot. *)
Fixpoint hasDot (s : string) : bool :=
  match s with
  | EmptyString => false
  | String c s' => Ascii.eqb c "." || hasDot s'
  end.

(** * Properties *)

(** ** The trace *)

Lemma emits_nil mc : emits [] mc = mc.
Proof.
  destruct mc; unfold emits; cbn. now rewrite app_nil_r.
Qed.

Lemma emits_emits es1 es2 mc : emits es2 (emits es1 mc) = emits (es1 ++ es2) mc.
Proof.
  unfold emits; cbn. now rewrite app_assoc.
Qed.

Lemma emit_emits e es mc : emits es (emit e mc) = emits (e :: es) mc.
Proof.
  unfold emit. now rewrite emits_emits.
Qed.

Lemma probes_app es1 es2 : probes (es1 ++ es2) = (probes es1 ++ probes es2)%list.
Proof. apply flat_map_app. Qed.

Lemma binds_app es1 es2 : binds (es1 ++ es2) = (binds es1 ++ binds es2)%list.
Proof. apply flat_map_app. Qed.

Lemma probes_map_EvProbe l : probes (map EvProbe l) = l.
Proof.
  induction l as [|a l IH]; cbn; [reflexivity | f_equal; exact IH].
Qed.

Lemma binds_map_EvProbe l : binds (map EvProbe l) = [].
Proof.
  induction l as [|a l IH]; cbn; [reflexivity | exact IH].
Qed.

Lemma probes_map_EvDisplayName l : probes (map EvDisplayName l) = [].
Proof.
  induction l as [|a l IH]; cbn; [reflexivity | exact IH].
Qed.

Lemma binds_map_EvDisplayName l : binds (map EvDisplayName l) = [].
Proof.
  induction l as [|a l IH]; cbn; [reflexivity | exact IH].
Qed.

(** ** Machine integers *)

Lemma to_int_id z : int_range z -> to_int z = z.
Proof.
  unfold int_range, to_int, wrap. intros H.
  change (2 ^ (32 - 1)) with 2147483648. change (2 ^ 32) with 4294967296.
  change (2 ^ 31) with 2147483648 in H.
  rewrite Z.mod_small by lia. lia.
Qed.

Lemma to_qint64_id z : qint64_range z -> to_qint64 z = z.
Proof.
  unfold qint64_range, to_qint64, wrap. intros H.
  change (2 ^ (64 - 1)) with 9223372036854775808.
  change (2 ^ 64) with 18446744073709551616.
  change (2 ^ 63) with 9223372036854775808 in H.
  rewrite Z.mod_small by lia. lia.
Qed.

Lemma to_int_range z : int_range (to_int z).
Proof.
  unfold int_range, to_int, wrap.
  change (2 ^ (32 - 1)) with 2147483648. change (2 ^ 32) with 4294967296.
  change (2 ^ 31) with 2147483648.
  pose proof (Z.mod_pos_bound (z + 2147483648) 4294967296 eq_refl). lia.
Qed.

Lemma seekTargetMs_floor p d :
  0 <= p <= 100 -> 0 <= d < 2 ^ 31 -> seekTargetMs p d = p * d / 100.
Proof.
  intros Hp Hd. change (2 ^ 31) with 2147483648 in Hd. unfold seekTargetMs.
  assert (Hpd : 0 <= p * d <= 100 * 2147483648) by nia.
  rewrite (to_qint64_id (p * d))
    by (unfold qint64_range; change (2 ^ 63) with 9223372036854775808; lia).
  rewrite (to_qint64_id (p * d * 1000))
    by (unfold qint64_range; change (2 ^ 63) with 9223372036854775808; lia).
  replace (p * d * 1000) with (p * d * 10 * 100) by ring.
  rewrite Z.quot_mul by lia.
  rewrite Z.quot_div_nonneg by lia.
  change 1000 with (100 * 10).
  rewrite Z.div_mul_cancel_r by lia.
  apply to_int_id. unfold int_range. change (2 ^ 31) with 2147483648.
  split.
  - pose proof (Z.div_pos (p * d) 100). lia.
  - apply Z.le_lt_trans with d; [| lia].
    apply Z.div_le_upper_bound; nia.
Qed.

Lemma msToUs_exact ms : int_range ms -> msToUs ms = ms * 1000.
Proof.
  unfold int_range, msToUs. change (2 ^ 31) with 2147483648. intros H.
  apply to_qint64_id. unfold qint64_range.
  change (2 ^ 63) with 9223372036854775808. lia.
Qed.

Lemma usToMs_range us : int_range (usToMs us).
Proof. apply to_int_range. Qed.

(** ** The poll, the rescan and the bind *)

Ltac break_match :=
  match goal with
  | |- context [match ?x with _ => _ end] => destruct x eqn:?
  | |- context [if ?x then _ else _] => destruct x eqn:?
  end.

Ltac solve_quiet :=
  cbn; rewrite <- ?app_assoc; eexists; split; [reflexivity |];
  split; cbn;
  rewrite ?probes_app, ?binds_app, ?probes_map_EvDisplayName, ?binds_map_EvDisplayName;
  reflexivity.

(** The poll, step by step: the state each step writes, the members it
    leaves alone, the requests it adds. *)
Lemma pollStatus_spec bus service mc :
  state (pollStatus bus service mc)
  = match getPlaybackStatus bus service with
    | Some reply => with_playbackStatus (parsePlaybackStatus reply) (state mc)
    | None => state mc
    end
  /\ playerInterface_ (pollStatus bus service mc) = playerInterface_ mc
  /\ propertiesInterface_ (pollStatus bus service mc) = propertiesInterface_ mc
  /\ availablePlayers_ (pollStatus bus service mc) = availablePlayers_ mc
  /\ trace (pollStatus bus service mc)
     = (trace mc ++ [EvGet service "PlaybackStatus"])%list.
Proof.
  unfold pollStatus. destruct (getPlaybackStatus bus service); repeat split.
Qed.

Lemma pollMetadata_spec bus service mc :
  state (pollMetadata bus service mc)
  = match getMetadata bus service with
    | Some metadata =>
        with_metadata (xesam_title metadata)
          (QString.join (xesam_artist metadata) ", ") (xesam_album metadata)
          (usToMs (toLongLong (mpris_length metadata)))
          (0 <? usToMs (toLongLong (mpris_length metadata))) (state mc)
    | None => state mc
    end
  /\ playerInterface_ (pollMetadata bus service mc) = playerInterface_ mc
  /\ propertiesInterface_ (pollMetadata bus service mc) = propertiesInterface_ mc
  /\ availablePlayers_ (pollMetadata bus service mc) = availablePlayers_ mc
  /\ trace (pollMetadata bus service mc)
     = (trace mc ++ [EvGet service "Metadata"])%list.
Proof.
  unfold pollMetadata. destruct (getMetadata bus service); repeat split.
Qed.

Lemma pollPosition_spec bus service mc :
  state (pollPosition bus service mc)
  = (if hasPosition_ (state mc) then
       match getPosition bus service with
       | Some reply => with_positionMs (usToMs (toLongLong reply)) (state mc)
       | None => state mc
       end
     else state mc)
  /\ playerInterface_ (pollPosition bus service mc) = playerInterface_ mc
  /\ propertiesInterface_ (pollPosition bus service mc) = propertiesInterface_ mc
  /\ availablePlayers_ (pollPosition bus service mc) = availablePlayers_ mc
  /\ trace (pollPosition bus service mc)
     = (trace mc ++ if hasPosition_ (state mc)
                    then [EvGet service "Position"] else [])%list.
Proof.
  unfold pollPosition.
  destruct (hasPosition_ (state mc));
    [| rewrite app_nil_r; repeat split].
  destruct (getPosition bus service); cbn; [| repeat split].
  destruct (0 <? durationMs_ (state mc)); repeat split.
Qed.

Lemma updateTrackInfoLabel_spec mc :
  state (updateTrackInfoLabel mc) = state mc
  /\ playerInterface_ (updateTrackInfoLabel mc) = playerInterface_ mc
  /\ propertiesInterface_ (updateTrackInfoLabel mc) = propertiesInterface_ mc
  /\ availablePlayers_ (updateTrackInfoLabel mc) = availablePlayers_ mc
  /\ trace (updateTrackInfoLabel mc) = trace mc.
Proof. repeat split. Qed.

Lemma updatePlayerInfo_unbound bus mc :
  playerInterface_ mc = None \/ propertiesInterface_ mc = None ->
  updatePlayerInfo bus mc = mc.
Proof.
  unfold updatePlayerInfo. intros [-> | ->]; [reflexivity |].
  now destruct (playerInterface_ mc).
Qed.

Lemma updatePlayerInfo_bound bus mc player service :
  playerInterface_ mc = Some player ->
  propertiesInterface_ mc = Some service ->
  updatePlayerInfo bus mc
  = updateTrackInfoLabel
      (pollPosition bus service (pollMetadata bus service (pollStatus bus service mc))).
Proof.
  unfold updatePlayerInfo. now intros -> ->.
Qed.

Ltac poll_steps bus service mc :=
  destruct (pollStatus_spec bus service mc) as (?Hst1 & ?Hpl1 & ?Hpr1 & ?Hav1 & ?Htr1);
  destruct (pollMetadata_spec bus service (pollStatus bus service mc))
    as (?Hst2 & ?Hpl2 & ?Hpr2 & ?Hav2 & ?Htr2);
  destruct (pollPosition_spec bus service
              (pollMetadata bus service (pollStatus bus service mc)))
    as (?Hst3 & ?Hpl3 & ?Hpr3 & ?Hav3 & ?Htr3);
  destruct (updateTrackInfoLabel_spec
              (pollPosition bus service
                 (pollMetadata bus service (pollStatus bus service mc))))
    as (?Hst4 & ?Hpl4 & ?Hpr4 & ?Hav4 & ?Htr4).

Lemma updatePlayerInfo_trace bus mc :
  exists es, trace (updatePlayerInfo bus mc) = (trace mc ++ es)%list /\ quiet es.
Proof.
  destruct (playerInterface_ mc) as [player|] eqn:Hpl;
    [destruct (propertiesInterface_ mc) as [service|] eqn:Hpr |];
    try (rewrite updatePlayerInfo_unbound by auto;
         exists []; rewrite app_nil_r; split; [reflexivity | split; reflexivity]).
  rewrite (updatePlayerInfo_bound _ _ _ _ Hpl Hpr).
  poll_steps bus service mc.
  rewrite Htr4, Htr3, Htr2, Htr1, <- !app_assoc.
  eexists; split; [reflexivity |].
  destruct (hasPosition_ _); split; reflexivity.
Qed.

Lemma updateAvailablePlayers_trace bus mc :
  exists es, trace (updateAvailablePlayers bus mc) = (trace mc ++ es)%list /\ quiet es.
Proof.
  unfold updateAvailablePlayers.
  destruct (connectionInterface bus); cbn;
    [| exists []; rewrite app_nil_r; split; [reflexivity | split; reflexivity]].
  destruct (registeredServiceNames bus); solve_quiet.
Qed.

Lemma connectToPlayer_trace bus service mc :
  exists es,
    trace (connectToPlayer bus service mc) = (trace mc ++ EvBind service :: es)%list
    /\ quiet es.
Proof.
  unfold connectToPlayer.
  destruct (playerValid bus service); cbn [negb].
  - match goal with
    | |- context [updatePlayerInfo bus ?m] =>
        destruct (updatePlayerInfo_trace bus m) as (es2 & -> & Hp2 & Hb2)
    end.
    match goal with
    | |- context [updateAvailablePlayers bus ?m] =>
        destruct (updateAvailablePlayers_trace bus m) as (es1 & -> & Hp1 & Hb1)
    end.
    cbn. exists (es1 ++ es2)%list. rewrite <- !app_assoc. split; [reflexivity |].
    split; [rewrite probes_app, Hp1, Hp2 | rewrite binds_app, Hb1, Hb2]; reflexivity.
  - exists []. split; [reflexivity | split; reflexivity].
Qed.

(** ** Best-player selection *)

Lemma PlaybackStatus_eqb_eq a b : PlaybackStatus_eqb a b = true <-> a = b.
Proof. destruct a, b; cbn; split; congruence. Qed.

Lemma isMprisService_nonempty service :
  isMprisService service = true -> QString.isEmpty service = false.
Proof. destruct service; [discriminate | reflexivity]. Qed.

Section Selection.

Variable bus : Bus.

(** The loop stops at the first candidate probed [Playing]. *)
Lemma bestPlayerLoop_playing pre service post :
  Forall (fun s => ~ probedPlaying bus s) pre ->
  probedPlaying bus service ->
  forall bestPlayer bestStatus mc,
    bestPlayerLoop bus (pre ++ service :: post) bestPlayer bestStatus mc
    = connectToPlayer bus service (emits (map EvProbe (pre ++ [service])) mc).
Proof.
  intros Hpre Hsvc. unfold probedPlaying in *.
  induction Hpre as [|a pre Ha _ IH]; intros bestPlayer bestStatus mc.
  - cbn [app bestPlayerLoop map]. rewrite Hsvc. reflexivity.
  - cbn [app bestPlayerLoop map].
    destruct (probeStatus bus a) as [[]|];
      [congruence | | |]; cbn [PlaybackStatus_eqb andb];
      repeat break_match; rewrite IH, emit_emits; reflexivity.
Qed.

(** Once a non-empty [bestPlayer] is [Paused], nothing but a [Playing]
    candidate replaces it. *)
Lemma bestPlayerLoop_paused_kept services :
  Forall (fun s => ~ probedPlaying bus s) services ->
  forall bestPlayer mc,
    QString.isEmpty bestPlayer = false ->
    bestPlayerLoop bus services bestPlayer Paused mc
    = connectToPlayer bus bestPlayer (emits (map EvProbe services) mc).
Proof.
  unfold probedPlaying.
  induction 1 as [|a l Ha _ IH]; intros bestPlayer mc Hne.
  - cbn [bestPlayerLoop map]. rewrite Hne, emits_nil. reflexivity.
  - cbn [bestPlayerLoop map].
    destruct (probeStatus bus a) as [[]|];
      [congruence | | |]; cbn [PlaybackStatus_eqb andb];
      rewrite ?Hne, IH, emit_emits by assumption; reflexivity.
Qed.

(** A non-empty [Stopped] [bestPlayer] is kept while no candidate is
    [Playing] or [Paused]. *)
Lemma bestPlayerLoop_stopped_kept services :
  Forall (fun s => ~ probedPlaying bus s) services ->
  Forall (fun s => ~ probedPaused bus s) services ->
  forall bestPlayer mc,
    QString.isEmpty bestPlayer = false ->
    bestPlayerLoop bus services bestPlayer Stopped mc
    = connectToPlayer bus bestPlayer (emits (map EvProbe services) mc).
Proof.
  unfold probedPlaying, probedPaused.
  induction 1 as [|a l Ha _ IH]; intros Hpa bestPlayer mc Hne.
  - cbn [bestPlayerLoop map]. rewrite Hne, emits_nil. reflexivity.
  - inversion Hpa as [|? ? Hpa1 Hpa2]; subst.
    cbn [bestPlayerLoop map].
    destruct (probeStatus bus a) as [[]|];
      [congruence | congruence | |]; cbn [PlaybackStatus_eqb andb];
      rewrite ?Hne, IH, emit_emits by assumption; reflexivity.
Qed.

(** With no [Playing] candidate and [bestStatus] still [Stopped], the first
    [Paused] candidate becomes [bestPlayer] and stays. *)
Lemma bestPlayerLoop_first_paused pre service post :
  Forall (fun s => ~ probedPlaying bus s) (pre ++ service :: post) ->
  Forall (fun s => ~ probedPaused bus s) pre ->
  probedPaused bus service ->
  QString.isEmpty service = false ->
  forall bestPlayer mc,
    bestPlayerLoop bus (pre ++ service :: post) bestPlayer Stopped mc
    = connectToPlayer bus service
        (emits (map EvProbe (pre ++ service :: post)) mc).
Proof.
  unfold probedPlaying, probedPaused.
  intros Hpl Hpre Hsvc Hne.
  induction Hpre as [|a pre Ha _ IH]; intros bestPlayer mc.
  - cbn [app] in *. inversion Hpl as [|? ? _ Hpost]; subst.
    cbn [bestPlayerLoop map]. rewrite Hsvc. cbn [PlaybackStatus_eqb andb].
    rewrite bestPlayerLoop_paused_kept, emit_emits by assumption. reflexivity.
  - cbn [app] in *. inversion Hpl as [|? ? Ha' Hrest]; subst.
    specialize (IH Hrest).
    cbn [bestPlayerLoop map].
    destruct (probeStatus bus a) as [[]|];
      [congruence | congruence | |]; cbn [PlaybackStatus_eqb andb];
      repeat break_match; rewrite IH, emit_emits; reflexivity.
Qed.

(** With no [Playing] and no [Paused] candidate, the first candidate whose
    probe succeeds becomes [bestPlayer] and stays. *)
Lemma bestPlayerLoop_first_stopped pre service post :
  Forall (fun s => ~ probedPlaying bus s) (pre ++ service :: post) ->
  Forall (fun s => ~ probedPaused bus s) (pre ++ service :: post) ->
  Forall (probeFailed bus) pre ->
  probedStopped bus service ->
  QString.isEmpty service = false ->
  forall mc,
    bestPlayerLoop bus (pre ++ service :: post) "" Stopped mc
    = connectToPlayer bus service
        (emits (map EvProbe (pre ++ service :: post)) mc).
Proof.
  unfold probedPlaying, probedPaused, probedStopped, probeFailed.
  intros Hpl Hpa Hpre Hsvc Hne.
  induction Hpre as [|a pre Ha _ IH]; intros mc.
  - cbn [app] in *.
    inversion Hpl as [|? ? _ Hpl']; inversion Hpa as [|? ? _ Hpa']; subst.
    cbn [bestPlayerLoop map]. rewrite Hsvc.
    cbn [PlaybackStatus_eqb andb QString.isEmpty].
    rewrite bestPlayerLoop_stopped_kept, emit_emits by assumption. reflexivity.
  - cbn [app] in *.
    inversion Hpl as [|? ? _ Hpl']; inversion Hpa as [|? ? _ Hpa']; subst.
    cbn [bestPlayerLoop map]. rewrite Ha, (IH Hpl' Hpa'), emit_emits. reflexivity.
Qed.

(** When every probe fails the loop only probes. *)
Lemma bestPlayerLoop_all_failed services :
  Forall (probeFailed bus) services ->
  forall mc,
    bestPlayerLoop bus services "" Stopped mc = emits (map EvProbe services) mc.
Proof.
  unfold probeFailed.
  induction 1 as [|a l Ha _ IH]; intros mc.
  - cbn. now rewrite emits_nil.
  - cbn [bestPlayerLoop map]. rewrite Ha, IH, emit_emits. reflexivity.
Qed.

End Selection.

(** ** What the helpers leave alone *)

Lemma updateAvailablePlayers_frame bus mc :
  state (updateAvailablePlayers bus mc) = state mc
  /\ playerInterface_ (updateAvailablePlayers bus mc) = playerInterface_ mc
  /\ propertiesInterface_ (updateAvailablePlayers bus mc) = propertiesInterface_ mc.
Proof.
  unfold updateAvailablePlayers.
  destruct (connectionInterface bus), (registeredServiceNames bus);
    cbn; repeat split; reflexivity.
Qed.

Lemma updatePlayerInfo_frame bus mc :
  currentPlayer_ (state (updatePlayerInfo bus mc)) = currentPlayer_ (state mc)
  /\ playerInterface_ (updatePlayerInfo bus mc) = playerInterface_ mc
  /\ propertiesInterface_ (updatePlayerInfo bus mc) = propertiesInterface_ mc
  /\ availablePlayers_ (updatePlayerInfo bus mc) = availablePlayers_ mc.
Proof.
  destruct (playerInterface_ mc) as [player|] eqn:Hpl;
    [destruct (propertiesInterface_ mc) as [service|] eqn:Hpr |];
    try (rewrite updatePlayerInfo_unbound by auto; repeat split; assumption).
  rewrite (updatePlayerInfo_bound _ _ _ _ Hpl Hpr).
  poll_steps bus service mc.
  rewrite Hst4, Hst3, Hst2, Hst1, Hpl4, Hpl3, Hpl2, Hpl1, Hpr4, Hpr3, Hpr2, Hpr1,
    Hav4, Hav3, Hav2, Hav1.
  repeat split; try assumption.
  repeat break_match; reflexivity.
Qed.

(** A successful bind leaves both handles on the service and the service
    marked active. *)
Lemma connectToPlayer_bound bus service mc :
  playerValid bus service = true ->
  currentPlayer_ (state (connectToPlayer bus service mc)) = service
  /\ playerInterface_ (connectToPlayer bus service mc) = Some service
  /\ propertiesInterface_ (connectToPlayer bus service mc) = Some service.
Proof.
  intros Hvalid. unfold connectToPlayer. rewrite Hvalid. cbn [negb].
  match goal with
  | |- context [updatePlayerInfo bus ?m] =>
      destruct (updatePlayerInfo_frame bus m) as (-> & -> & -> & _)
  end.
  match goal with
  | |- context [updateAvailablePlayers bus ?m] =>
      destruct (updateAvailablePlayers_frame bus m) as (-> & -> & ->)
  end.
  repeat split; reflexivity.
Qed.

(** A failed bind leaves the members as [disconnectFromPlayer] does. *)
Lemma connectToPlayer_unbound bus service mc :
  playerValid bus service = false ->
  connectToPlayer bus service mc
  = emit (EvBind service) (disconnectFromPlayer mc).
Proof.
  intros Hvalid. unfold connectToPlayer. rewrite Hvalid. reflexivity.
Qed.

(** ** The members between slots *)

Lemma Inv_emits es mc : Inv mc -> Inv (emits es mc).
Proof. intros [h1 h2 h3 h4 h5 h6 h7]. constructor; assumption. Qed.

Lemma Inv_initial : Inv initial.
Proof.
  constructor; cbn; try reflexivity; try constructor;
    unfold int_range; cbn; lia.
Qed.

Lemma Inv_disconnectFromPlayer mc : Inv mc -> Inv (disconnectFromPlayer mc).
Proof.
  intros [h1 h2 h3 h4 h5 h6 h7].
  constructor; cbn; try reflexivity; try assumption; unfold int_range; cbn; lia.
Qed.

Lemma Inv_pollStatus bus service mc : Inv mc -> Inv (pollStatus bus service mc).
Proof.
  intros [h1 h2 h3 h4 h5 h6 h7]. unfold pollStatus.
  destruct (getPlaybackStatus bus service); constructor; assumption.
Qed.

Lemma Inv_pollMetadata bus service mc : Inv mc -> Inv (pollMetadata bus service mc).
Proof.
  intros [h1 h2 h3 h4 h5 h6 h7]. unfold pollMetadata.
  destruct (getMetadata bus service); constructor; try assumption.
  - reflexivity.
  - apply usToMs_range.
Qed.

Lemma Inv_pollPosition bus service mc : Inv mc -> Inv (pollPosition bus service mc).
Proof.
  intros [h1 h2 h3 h4 h5 h6 h7]. unfold pollPosition.
  destruct (hasPosition_ (state mc)) eqn:Hhas;
    [| constructor; solve [assumption | congruence]].
  destruct (getPosition bus service);
    [| constructor; cbn; solve [assumption | congruence]].
  cbn. destruct (0 <? durationMs_ (state mc)) eqn:Hd;
    constructor; cbn; solve [assumption | congruence | apply usToMs_range].
Qed.

Lemma Inv_updateTrackInfoLabel mc : Inv mc -> Inv (updateTrackInfoLabel mc).
Proof. intros [h1 h2 h3 h4 h5 h6 h7]. constructor; assumption. Qed.

Lemma Inv_updatePlayerInfo bus mc : Inv mc -> Inv (updatePlayerInfo bus mc).
Proof.
  intros H. unfold updatePlayerInfo.
  destruct (playerInterface_ mc); [| exact H].
  destruct (propertiesInterface_ mc); [| exact H].
  now apply Inv_updateTrackInfoLabel, Inv_pollPosition, Inv_pollMetadata,
    Inv_pollStatus.
Qed.

Lemma Inv_updateAvailablePlayers bus mc : Inv mc -> Inv (updateAvailablePlayers bus mc).
Proof.
  intros [h1 h2 h3 h4 h5 h6 h7]. unfold updateAvailablePlayers.
  destruct (connectionInterface bus); cbn [negb];
    [| constructor; try assumption; constructor].
  destruct (registeredServiceNames bus) as [names|];
    [| constructor; try assumption; constructor].
  assert (Hf : Forall (fun s => isMprisService s = true)
                 (filter isMprisService names)).
  { apply Forall_forall. intros s Hs. now apply filter_In in Hs. }
  constructor; try assumption. cbn.
  assert (Hm : Forall (fun a => enabled a = true -> isMprisService (data a) = true)
                 (map (playerAction bus (currentPlayer_ (state mc)))
                    (filter isMprisService names))).
  { apply Forall_map. eapply Forall_impl; [| exact Hf]. cbn. auto. }
  destruct (filter isMprisService names); [| exact Hm].
  apply Forall_app. split; [exact Hm |].
  constructor; [discriminate | constructor].
Qed.

Lemma Inv_connectToPlayer bus service mc :
  isMprisService service = true -> Inv mc -> Inv (connectToPlayer bus service mc).
Proof.
  intros Hs H. unfold connectToPlayer.
  apply Inv_disconnectFromPlayer in H.
  destruct (playerValid bus service); cbn [negb].
  - apply Inv_updatePlayerInfo, Inv_updateAvailablePlayers.
    destruct H as [h1 h2 h3 h4 h5 h6 h7].
    constructor; try assumption; cbn; try reflexivity.
    now rewrite (isMprisService_nonempty _ Hs).
  - apply Inv_disconnectFromPlayer.
    destruct H as [h1 h2 h3 h4 h5 h6 h7].
    constructor; try assumption; cbn; try reflexivity.
    now rewrite (isMprisService_nonempty _ Hs).
Qed.

Lemma Inv_bestPlayerLoop bus services :
  Forall (fun s => isMprisService s = true) services ->
  forall bestPlayer bestStatus mc,
    bestPlayer = "" \/ isMprisService bestPlayer = true ->
    Inv mc ->
    Inv (bestPlayerLoop bus services bestPlayer bestStatus mc).
Proof.
  induction 1 as [|a l Ha _ IH]; intros bestPlayer bestStatus mc Hb H.
  - cbn. destruct Hb as [-> | Hb]; [exact H |].
    rewrite (isMprisService_nonempty _ Hb). now apply Inv_connectToPlayer.
  - cbn [bestPlayerLoop].
    pose proof (Inv_emits [EvProbe a] mc H) as H'.
    destruct (probeStatus bus a) as [status|]; [| now apply IH].
    repeat break_match; try (apply IH; auto).
    now apply Inv_connectToPlayer.
Qed.

Lemma Inv_connectToBestPlayer bus mc : Inv mc -> Inv (connectToBestPlayer bus mc).
Proof.
  intros H. pose proof (inv_players mc H) as Hp. unfold connectToBestPlayer.
  destruct (availablePlayers_ mc) as [|a [|b l]] eqn:Hav; [exact H | |].
  - inversion Hp; subst. now apply Inv_connectToPlayer.
  - rewrite <- Hav in *. apply Inv_bestPlayerLoop; auto.
Qed.

Lemma Inv_betterPlayerLoop bus services :
  Forall (fun s => isMprisService s = true) services ->
  forall mc, Inv mc -> Inv (betterPlayerLoop bus services mc).
Proof.
  induction 1 as [|a l Ha _ IH]; intros mc H; [exact H |].
  cbn [betterPlayerLoop].
  pose proof (Inv_emits [EvProbe a] mc H) as H'.
  repeat break_match; try (now apply IH).
  now apply Inv_connectToPlayer.
Qed.

Lemma Inv_checkForBetterPlayer bus mc : Inv mc -> Inv (checkForBetterPlayer bus mc).
Proof.
  intros H. unfold checkForBetterPlayer.
  destruct (PlaybackStatus_eqb _ _); [exact H |].
  apply Inv_betterPlayerLoop; [apply (inv_players mc H) | exact H].
Qed.

Lemma Inv_refreshMediaInfo bus mc : Inv mc -> Inv (refreshMediaInfo bus mc).
Proof.
  intros H. unfold refreshMediaInfo.
  destruct (playerInterface_ mc); [| exact H].
  pose proof (Inv_updatePlayerInfo bus mc H).
  break_match; [now apply Inv_checkForBetterPlayer | assumption].
Qed.

Lemma Inv_onDBusServiceRegistered bus service mc :
  Inv mc -> Inv (onDBusServiceRegistered bus service mc).
Proof.
  intros H. unfold onDBusServiceRegistered.
  destruct (QString.startsWith service kPrefix); [| exact H].
  pose proof (Inv_updateAvailablePlayers bus mc H).
  break_match; [now apply Inv_connectToBestPlayer | assumption].
Qed.

Lemma Inv_onDBusServiceUnregistered bus service mc :
  Inv mc -> Inv (onDBusServiceUnregistered bus service mc).
Proof.
  intros H. unfold onDBusServiceUnregistered.
  destruct (QString.startsWith service kPrefix); [| exact H].
  apply Inv_updateAvailablePlayers.
  destruct (String.eqb service (currentPlayer_ (state mc))); [| exact H].
  pose proof (Inv_updateAvailablePlayers bus _ (Inv_disconnectFromPlayer mc H)).
  break_match; [now apply Inv_connectToBestPlayer | assumption].
Qed.

Lemma Inv_construct bus : Inv (construct bus).
Proof.
  unfold construct.
  pose proof (Inv_updateAvailablePlayers bus initial Inv_initial).
  break_match; [now apply Inv_connectToBestPlayer | assumption].
Qed.

(** With the handles paired, setPosition never calls through a null
    pointer. *)
Lemma setPosition_defined bus positionMs mc :
  Inv mc ->
  exists mc', setPosition bus positionMs mc = Some mc' /\ Inv mc'.
Proof.
  intros H. unfold setPosition. rewrite (inv_handles mc H).
  destruct (playerInterface_ mc) as [player|]; [| now exists mc].
  destruct (getMetadata bus player); eexists; split; try reflexivity;
    unfold emit; now repeat apply Inv_emits.
Qed.

Lemma Inv_handle bus input mc :
  Inv mc -> admissible mc input ->
  exists mc', handle bus input mc = Some mc' /\ Inv mc'.
Proof.
  intros H Hadm. destruct input; cbn [handle].
  - eexists; split; [reflexivity | now apply Inv_refreshMediaInfo].
  - eexists; split; [reflexivity |]. unfold onPlayPause.
    repeat break_match; try exact H; now apply Inv_emits.
  - eexists; split; [reflexivity |]. unfold onPrevious.
    repeat break_match; try exact H; now apply Inv_emits.
  - eexists; split; [reflexivity |]. unfold onNext.
    repeat break_match; try exact H; now apply Inv_emits.
  - unfold onPositionSliderChanged.
    destruct (playerInterface_ mc); [| now exists mc].
    destruct (hasPosition_ (state mc)); [| now exists mc].
    now apply setPosition_defined.
  - eexists; split; [reflexivity |]. unfold onPlayerSelected.
    destruct sender as [action|]; [| exact H].
    destruct Hadm as [Hin Hen].
    apply Inv_connectToPlayer; [| exact H].
    pose proof (inv_menu mc H) as Hm.
    rewrite Forall_forall in Hm. now apply Hm.
  - eexists; split; [reflexivity | now apply Inv_onDBusServiceRegistered].
  - eexists; split; [reflexivity | now apply Inv_onDBusServiceUnregistered].
  - eexists; split; [reflexivity |]. unfold mousePressEvent, onPlayPause, onNext.
    repeat break_match; try exact H; now apply Inv_emits.
Qed.

Lemma Reachable_Inv mc : Reachable mc -> Inv mc.
Proof.
  induction 1 as [bus | bus input mc mc' _ IH Hadm Hstep].
  - apply Inv_construct.
  - destruct (Inv_handle bus input mc IH Hadm) as (mc'' & Heq & Hinv).
    congruence.
Qed.

(** C1.  When connectToBestPlayer has more than one candidate and one of them
    is probed [Playing], it calls connectToPlayer on the earliest such
    candidate: the candidates before it were probed, it was probed, and none
    after it is probed or bound; it is the one connection attempt, and when
    its player interface is valid it is the active session afterwards. *)
Theorem connectToBestPlayer_first_playing bus mc pre service post :
  availablePlayers_ mc = (pre ++ service :: post)%list ->
  (1 < List.length (availablePlayers_ mc))%nat ->
  Forall (fun s => ~ probedPlaying bus s) pre ->
  probedPlaying bus service ->
  let mc' := connectToBestPlayer bus mc in
  mc' = connectToPlayer bus service (emits (map EvProbe (pre ++ [service])) mc)
  /\ probes (trace mc') = (probes (trace mc) ++ pre ++ [service])%list
  /\ binds (trace mc') = (binds (trace mc) ++ [service])%list
  /\ (playerValid bus service = true ->
      currentPlayer_ (state mc') = service
      /\ playerInterface_ mc' = Some service).
Proof.
  intros Hall Hlen Hpre Hsvc mc'.
  assert (Heq : mc' = connectToPlayer bus service
                        (emits (map EvProbe (pre ++ [service])) mc)).
  { subst mc'. unfold connectToBestPlayer.
    destruct (availablePlayers_ mc) as [|a [|b l]] eqn:Hav;
      [cbn in Hlen; lia | cbn in Hlen; lia |].
    rewrite Hall. now apply bestPlayerLoop_playing. }
  split; [exact Heq |]. rewrite Heq.
  destruct (connectToPlayer_trace bus service
              (emits (map EvProbe (pre ++ [service])) mc)) as (es & -> & Hp & Hb).
  cbn [trace emits].
  repeat split.
  - rewrite !probes_app, probes_map_EvProbe.
    change (probes (EvBind service :: es)) with (probes es).
    rewrite Hp, app_nil_r. reflexivity.
  - rewrite !binds_app, binds_map_EvProbe.
    change (binds (EvBind service :: es)) with (service :: binds es).
    rewrite Hb, app_nil_r. reflexivity.
  - now apply connectToPlayer_bound.
  - now apply connectToPlayer_bound.
Qed.

(** The scenario of the specification: [Stopped], [Playing], [Playing] in
    discovery order. *)
Lemma connectToBestPlayer_first_playing_witness :
  let bus := sampleBus [(vlc, Some "Stopped"); (spotify, Some "Playing");
                        (firefox, Some "Playing")] in
  let mc := connectToBestPlayer bus (with_availablePlayers [vlc; spotify; firefox] initial) in
  currentPlayer_ (state mc) = spotify
  /\ probes (trace mc) = [vlc; spotify]
  /\ binds (trace mc) = [spotify].
Proof.
  intros bus mc.
  destruct (connectToBestPlayer_first_playing bus
              (with_availablePlayers [vlc; spotify; firefox] initial)
              [vlc] spotify [firefox]) as (_ & Hp & Hb & Hc).
  - reflexivity.
  - cbn; lia.
  - repeat constructor. cbv. discriminate.
  - reflexivity.
  - split; [apply Hc; reflexivity | split; [exact Hp | exact Hb]].
Defined.

(** C2.  When connectToBestPlayer has more than one candidate (all of them
    in the player namespace) and none is probed [Playing], every candidate is
    probed and then: the earliest candidate probed [Paused] is connected to, if
    there is one; otherwise the earliest candidate whose probe succeeded; and
    when every probe fails no connection is attempted and no member changes. *)
Theorem connectToBestPlayer_none_playing bus mc :
  (1 < List.length (availablePlayers_ mc))%nat ->
  Forall (fun s => isMprisService s = true) (availablePlayers_ mc) ->
  Forall (fun s => ~ probedPlaying bus s) (availablePlayers_ mc) ->
  let probed := emits (map EvProbe (availablePlayers_ mc)) mc in
  (forall pre service post,
      availablePlayers_ mc = (pre ++ service :: post)%list ->
      Forall (fun s => ~ probedPaused bus s) pre ->
      probedPaused bus service ->
      connectToBestPlayer bus mc = connectToPlayer bus service probed)
  /\ (Forall (fun s => ~ probedPaused bus s) (availablePlayers_ mc) ->
      forall pre service post,
        availablePlayers_ mc = (pre ++ service :: post)%list ->
        Forall (probeFailed bus) pre ->
        probedStopped bus service ->
        connectToBestPlayer bus mc = connectToPlayer bus service probed)
  /\ (Forall (probeFailed bus) (availablePlayers_ mc) ->
      connectToBestPlayer bus mc = probed).
Proof.
  intros Hlen Hns Hpl probed. subst probed.
  assert (Hloop : connectToBestPlayer bus mc
                  = bestPlayerLoop bus (availablePlayers_ mc) "" Stopped mc).
  { unfold connectToBestPlayer.
    destruct (availablePlayers_ mc) as [|a [|b l]];
      [cbn in Hlen; lia | cbn in Hlen; lia | reflexivity]. }
  rewrite Hloop.
  assert (Hne : forall pre service post,
             availablePlayers_ mc = (pre ++ service :: post)%list ->
             QString.isEmpty service = false).
  { intros pre service post Hav. rewrite Hav in Hns.
    apply Forall_app in Hns as [_ Hns]. inversion Hns; subst.
    now apply isMprisService_nonempty. }
  repeat split.
  - intros pre service post Hav Hpre Hsvc.
    rewrite Hav in *. apply bestPlayerLoop_first_paused; eauto.
  - intros Hpa pre service post Hav Hpre Hsvc.
    rewrite Hav in *. apply bestPlayerLoop_first_stopped; eauto.
  - intros Hfail. now apply bestPlayerLoop_all_failed.
Qed.

(** [Stopped], [Paused], [Paused]: the first [Paused] candidate wins. *)
Lemma connectToBestPlayer_none_playing_witness :
  let bus := sampleBus [(vlc, Some "Stopped"); (spotify, Some "Paused");
                        (firefox, Some "Paused")] in
  let mc := with_availablePlayers [vlc; spotify; firefox] initial in
  connectToBestPlayer bus mc
  = connectToPlayer bus spotify (emits (map EvProbe [vlc; spotify; firefox]) mc).
Proof.
  intros bus mc.
  destruct (connectToBestPlayer_none_playing bus mc) as (Hpaused & _ & _).
  - cbn; lia.
  - repeat constructor.
  - repeat constructor; cbv; discriminate.
  - apply (Hpaused [vlc] spotify [firefox]).
    + reflexivity.
    + repeat constructor. cbv. discriminate.
    + reflexivity.
Defined.

(** ** The periodic takeover check *)

Section Takeover.

Variable bus : Bus.

Let others (active : string) (l : list string) : list string :=
  filter (fun s => negb (String.eqb s active)) l.

(** No peer probed [Playing]: the loop probes the peers and changes nothing
    else. *)
Lemma betterPlayerLoop_none services :
  forall mc,
    Forall (fun s => ~ probedPlaying bus s)
           (others (currentPlayer_ (state mc)) services) ->
    betterPlayerLoop bus services mc
    = emits (map EvProbe (others (currentPlayer_ (state mc)) services)) mc.
Proof.
  unfold probedPlaying, others.
  induction services as [|a l IH]; intros mc Hno.
  - cbn. now rewrite emits_nil.
  - cbn [betterPlayerLoop filter] in *.
    destruct (String.eqb a (currentPlayer_ (state mc))); cbn [negb] in *.
    + now apply IH.
    + inversion Hno as [|? ? Ha Hrest]; subst.
      destruct (probeStatus bus a) as [[]|];
        [congruence | | |]; cbn [PlaybackStatus_eqb map];
        rewrite IH, emit_emits by exact Hrest; reflexivity.
Qed.

(** The first peer probed [Playing] is connected to, and no later candidate
    is probed. *)
Lemma betterPlayerLoop_playing pre service post :
  forall mc,
    Forall (fun s => ~ probedPlaying bus s)
           (others (currentPlayer_ (state mc)) pre) ->
    service <> currentPlayer_ (state mc) ->
    probedPlaying bus service ->
    betterPlayerLoop bus (pre ++ service :: post) mc
    = connectToPlayer bus service
        (emits (map EvProbe (others (currentPlayer_ (state mc)) pre ++ [service])) mc).
Proof.
  unfold probedPlaying, others.
  induction pre as [|a l IH]; intros mc Hno Hneq Hsvc.
  - cbn [app betterPlayerLoop filter map].
    apply String.eqb_neq in Hneq. rewrite Hneq, Hsvc. reflexivity.
  - cbn [app betterPlayerLoop filter] in *.
    destruct (String.eqb a (currentPlayer_ (state mc))); cbn [negb] in *.
    + now apply IH.
    + inversion Hno as [|? ? Ha Hrest]; subst.
      destruct (probeStatus bus a) as [[]|];
        [congruence | | |]; cbn [PlaybackStatus_eqb map app];
        rewrite IH, emit_emits by assumption; reflexivity.
Qed.

(** Whatever the bus answers, the loop probes peers only. *)
Lemma betterPlayerLoop_probes services :
  forall mc,
  exists es,
    trace (betterPlayerLoop bus services mc) = (trace mc ++ es)%list
    /\ incl (probes es) (others (currentPlayer_ (state mc)) services).
Proof.
  unfold others.
  induction services as [|a l IH]; intros mc.
  - exists []. cbn. rewrite app_nil_r. split; [reflexivity | apply incl_refl].
  - cbn [betterPlayerLoop filter].
    destruct (String.eqb a (currentPlayer_ (state mc))); cbn [negb].
    + apply IH.
    + assert (Hcont : exists es,
                 trace (betterPlayerLoop bus l (emit (EvProbe a) mc))
                 = (trace mc ++ es)%list
                 /\ incl (probes es)
                      (a :: filter (fun s => negb (String.eqb s (currentPlayer_ (state mc)))) l)).
      { destruct (IH (emit (EvProbe a) mc)) as (es & Htr & Hincl).
        exists (EvProbe a :: es). split.
        - rewrite Htr. cbn. now rewrite <- app_assoc.
        - intros s [<- | Hs]; [now left | right; now apply Hincl]. }
      destruct (probeStatus bus a) as [[]|]; cbn [PlaybackStatus_eqb];
        try exact Hcont.
      destruct (connectToPlayer_trace bus a (emit (EvProbe a) mc))
        as (es & -> & Hp & _).
      exists (EvProbe a :: EvBind a :: es). split.
      * cbn. now rewrite <- app_assoc.
      * change (probes (EvProbe a :: EvBind a :: es)) with (a :: probes es).
        rewrite Hp. intros s [<- | []]. now left.
Qed.

End Takeover.

(** The timer slot goes beyond the poll only through the takeover check, and
    only when bound, with more than one candidate and a polled status other
    than [Playing]. *)
Lemma refreshMediaInfo_gate bus mc :
  refreshMediaInfo bus mc <> updatePlayerInfo bus mc ->
  playerInterface_ mc <> None
  /\ (1 < List.length (availablePlayers_ mc))%nat
  /\ playbackStatus_ (state (updatePlayerInfo bus mc)) <> Playing
  /\ refreshMediaInfo bus mc = checkForBetterPlayer bus (updatePlayerInfo bus mc).
Proof.
  unfold refreshMediaInfo.
  destruct (playerInterface_ mc) as [player|] eqn:Hpl;
    [| rewrite updatePlayerInfo_unbound by auto; congruence].
  destruct (updatePlayerInfo_frame bus mc) as (_ & _ & _ & Hav). rewrite Hav.
  destruct (Nat.ltb_spec 1 (List.length (availablePlayers_ mc))) as [Hlen | Hlen];
    [| cbn; congruence].
  destruct (PlaybackStatus_eqb _ Playing) eqn:Hst; [cbn; congruence |].
  intros _. repeat split; try congruence.
  intros Heq. rewrite Heq in Hst. discriminate.
Qed.

(** C3.  The takeover check is reached from the timer slot only after a poll
    that leaves the cached status other than [Playing], with more than one
    candidate registered, and it returns at once when the cached status is
    [Playing].  It probes peers only, never the active session.  When no peer
    is probed [Playing] it changes no member (it only probes the peers); the
    first peer probed [Playing] is switched to with connectToPlayer, which
    disconnects and then binds, and no later candidate is probed. *)
Theorem checkForBetterPlayer_takeover bus mc :
  let active := currentPlayer_ (state mc) in
  (refreshMediaInfo bus mc <> updatePlayerInfo bus mc ->
     playerInterface_ mc <> None
     /\ (1 < List.length (availablePlayers_ mc))%nat
     /\ playbackStatus_ (state (updatePlayerInfo bus mc)) <> Playing
     /\ refreshMediaInfo bus mc = checkForBetterPlayer bus (updatePlayerInfo bus mc))
  /\ (playbackStatus_ (state mc) = Playing -> checkForBetterPlayer bus mc = mc)
  /\ (exists es,
        trace (checkForBetterPlayer bus mc) = (trace mc ++ es)%list
        /\ ~ In active (probes es)
        /\ incl (probes es) (peers mc))
  /\ (playbackStatus_ (state mc) <> Playing ->
      Forall (fun s => ~ probedPlaying bus s) (peers mc) ->
      checkForBetterPlayer bus mc = emits (map EvProbe (peers mc)) mc)
  /\ (forall pre service post,
        playbackStatus_ (state mc) <> Playing ->
        availablePlayers_ mc = (pre ++ service :: post)%list ->
        Forall (fun s => s = active \/ ~ probedPlaying bus s) pre ->
        service <> active ->
        probedPlaying bus service ->
        checkForBetterPlayer bus mc
        = connectToPlayer bus service
            (emits (map EvProbe
                      (filter (fun s => negb (String.eqb s active)) pre
                       ++ [service])) mc)).
Proof.
  intros active. subst active.
  assert (Hguard : playbackStatus_ (state mc) <> Playing ->
                   checkForBetterPlayer bus mc
                   = betterPlayerLoop bus (availablePlayers_ mc) mc).
  { intros Hst. unfold checkForBetterPlayer.
    destruct (PlaybackStatus_eqb _ Playing) eqn:Hp; [| reflexivity].
    apply PlaybackStatus_eqb_eq in Hp. contradiction. }
  split; [| split; [| split; [| split]]].
  - apply refreshMediaInfo_gate.
  - intros Hst. unfold checkForBetterPlayer. now rewrite Hst.
  - unfold checkForBetterPlayer.
    destruct (PlaybackStatus_eqb _ Playing).
    + exists []. rewrite app_nil_r.
      split; [reflexivity | split; [intros [] | intros ? []]].
    + destruct (betterPlayerLoop_probes bus (availablePlayers_ mc) mc)
        as (es & Htr & Hincl).
      exists es. split; [exact Htr | split; [| exact Hincl]].
      intros Hin. apply Hincl, filter_In in Hin as [_ Hin].
      now rewrite String.eqb_refl in Hin.
  - intros Hst Hno. rewrite (Hguard Hst). now apply betterPlayerLoop_none.
  - intros pre service post Hst Hav Hpre Hneq Hsvc.
    rewrite (Hguard Hst), Hav. apply betterPlayerLoop_playing; try assumption.
    clear - Hpre. induction Hpre as [|a l Ha _ IH]; cbn; [constructor |].
    destruct (String.eqb_spec a (currentPlayer_ (state mc))); cbn; [exact IH |].
    constructor; [| exact IH]. destruct Ha; [contradiction | assumption].
Qed.

(** The scenario of the specification: the active session is [Paused] and a
    peer starts [Playing]; the next check switches to the peer. *)
Lemma checkForBetterPlayer_takeover_witness :
  let before := sampleBus [(vlc, Some "Paused"); (spotify, Some "Stopped")] in
  let after := sampleBus [(vlc, Some "Paused"); (spotify, Some "Playing")] in
  let mc := construct before in
  currentPlayer_ (state mc) = vlc
  /\ checkForBetterPlayer after mc
     = connectToPlayer after spotify (emits [EvProbe spotify] mc)
  /\ currentPlayer_ (state (checkForBetterPlayer after mc)) = spotify.
Proof.
  intros before after mc.
  destruct (checkForBetterPlayer_takeover after mc) as (_ & _ & _ & _ & Hswitch).
  assert (Heq : checkForBetterPlayer after mc
                = connectToPlayer after spotify (emits [EvProbe spotify] mc)).
  { apply (Hswitch [vlc] spotify []).
    - vm_compute. discriminate.
    - reflexivity.
    - repeat constructor.
    - vm_compute. discriminate.
    - reflexivity. }
  split; [reflexivity | split; [exact Heq |]].
  rewrite Heq. reflexivity.
Defined.

(** ** Connecting, polling, disconnecting *)

Lemma updateAvailablePlayers_trace_eq bus mc :
  trace (updateAvailablePlayers bus mc) = (trace mc ++ rescanEvents bus)%list.
Proof.
  unfold updateAvailablePlayers, rescanEvents.
  destruct (connectionInterface bus); cbn; [| now rewrite app_nil_r].
  destruct (registeredServiceNames bus); cbn; now rewrite <- ?app_assoc.
Qed.

(** What a poll on a bound session writes, member by member. *)
Lemma updatePlayerInfo_fields bus mc player service :
  playerInterface_ mc = Some player ->
  propertiesInterface_ mc = Some service ->
  let st := state mc in
  let st' := state (updatePlayerInfo bus mc) in
  currentPlayer_ st' = currentPlayer_ st
  /\ playbackStatus_ st'
     = match getPlaybackStatus bus service with
       | Some reply => parsePlaybackStatus reply
       | None => playbackStatus_ st
       end
  /\ (currentTitle_ st', currentArtist_ st', currentAlbum_ st',
      durationMs_ st', hasPosition_ st')
     = match getMetadata bus service with
       | Some metadata =>
           (xesam_title metadata,
            QString.join (xesam_artist metadata) ", ",
            xesam_album metadata,
            usToMs (toLongLong (mpris_length metadata)),
            0 <? usToMs (toLongLong (mpris_length metadata)))
       | None =>
           (currentTitle_ st, currentArtist_ st, currentAlbum_ st,
            durationMs_ st, hasPosition_ st)
       end
  /\ positionMs_ st'
     = (if hasPosition_ st' then
          match getPosition bus service with
          | Some reply => usToMs (toLongLong reply)
          | None => positionMs_ st
          end
        else positionMs_ st)
  /\ trace (updatePlayerInfo bus mc)
     = (trace mc ++ pollEvents service (hasPosition_ st'))%list.
Proof.
  intros Hpl Hpr st st'. subst st st'.
  rewrite (updatePlayerInfo_bound _ _ _ _ Hpl Hpr).
  poll_steps bus service mc.
  rewrite Htr4, Htr3, Htr2, Htr1, Hst4, Hst3, Hst2, Hst1. unfold pollEvents.
  destruct (getPlaybackStatus bus service), (getMetadata bus service); cbn;
    repeat (break_match; cbn in * ); rewrite <- ?app_assoc; repeat split; congruence.
Qed.

(** C5.  connectToPlayer: when the player interface is not valid, both
    handles end null and the state model is the empty one; when it is valid,
    both handles are bound to the session, the session is the active one, and
    the rest of the state model is what exactly one poll of that session
    writes into the empty state model. *)
Theorem connectToPlayer_outcome bus service mc :
  let mc' := connectToPlayer bus service mc in
  (playerValid bus service = false ->
     connection mc' = Disconnected
     /\ playerInterface_ mc' = None
     /\ propertiesInterface_ mc' = None
     /\ state mc' = emptyState
     /\ trace mc' = (trace mc ++ [EvBind service])%list)
  /\ (playerValid bus service = true ->
      connection mc' = Connected
      /\ playerInterface_ mc' = Some service
      /\ propertiesInterface_ mc' = Some service
      /\ currentPlayer_ (state mc') = service
      /\ playbackStatus_ (state mc')
         = match getPlaybackStatus bus service with
           | Some reply => parsePlaybackStatus reply
           | None => Stopped
           end
      /\ (currentTitle_ (state mc'), currentArtist_ (state mc'),
          currentAlbum_ (state mc'), durationMs_ (state mc'),
          hasPosition_ (state mc'))
         = match getMetadata bus service with
           | Some metadata =>
               (xesam_title metadata,
                QString.join (xesam_artist metadata) ", ",
                xesam_album metadata,
                usToMs (toLongLong (mpris_length metadata)),
                0 <? usToMs (toLongLong (mpris_length metadata)))
           | None => ("", "", "", 0, false)
           end
      /\ positionMs_ (state mc')
         = (if hasPosition_ (state mc') then
              match getPosition bus service with
              | Some reply => usToMs (toLongLong reply)
              | None => 0
              end
            else 0)
      /\ trace mc'
         = (trace mc ++ EvBind service :: rescanEvents bus
              ++ pollEvents service (hasPosition_ (state mc')))%list).
Proof.
  intros mc'. subst mc'. split; intros Hvalid.
  - rewrite (connectToPlayer_unbound _ _ _ Hvalid). repeat split.
  - unfold connection, connectToPlayer. rewrite Hvalid. cbn [negb].
    match goal with
    | |- context [updateAvailablePlayers bus ?m] => set (base := m)
    end.
    destruct (updateAvailablePlayers_frame bus base) as (Hst & Hp1 & Hp2).
    change (playerInterface_ base) with (Some service) in Hp1.
    change (propertiesInterface_ base) with (Some service) in Hp2.
    change (state base) with (with_currentPlayer service emptyState) in Hst.
    destruct (updatePlayerInfo_fields bus _ service service Hp1 Hp2)
      as (Hcur & Hstatus & Hmeta & Hpos & Htrace).
    destruct (updatePlayerInfo_frame bus (updateAvailablePlayers bus base))
      as (_ & Hpl & Hpr & _).
    cbv zeta in *. rewrite Hst in *. rewrite Hpl, Hpr, Hp1, Hp2.
    rewrite Hcur, Hstatus, Hmeta, Hpos, Htrace, updateAvailablePlayers_trace_eq.
    repeat split. cbn. now rewrite <- !app_assoc.
Qed.

(** A bind that fails and a bind that succeeds on the same player. *)
Lemma connectToPlayer_outcome_witness :
  observable (connectToPlayer bindFailsBus vlc initial) = (emptyState, Disconnected)
  /\ observable (connectToPlayer (sampleBus [(vlc, Some "Paused")]) vlc initial)
     = ({| currentPlayer_ := vlc;
           currentTitle_ := "So What";
           currentArtist_ := "Miles Davis, John Coltrane";
           currentAlbum_ := "Kind of Blue";
           playbackStatus_ := Paused;
           positionMs_ := 61500;
           durationMs_ := 562000;
           hasPosition_ := true |}, Connected).
Proof.
  destruct (connectToPlayer_outcome bindFailsBus vlc initial) as (Hfail & _).
  destruct (connectToPlayer_outcome (sampleBus [(vlc, Some "Paused")]) vlc initial)
    as (_ & Hok).
  destruct (Hfail eq_refl) as (Hc & _ & _ & Hst & _).
  destruct (Hok eq_refl) as (Hc' & _).
  unfold observable. rewrite Hc, Hst, Hc'. split; [reflexivity |].
  f_equal.
Defined.

(** C6.  A poll on a bound session returns for every bus, keeps the active
    identifier and the handles, and writes the three groups of the state model
    independently: the status from the status reply, the title, artist, album,
    duration and has-position from the metadata reply, the position from the
    position reply (asked only with has-position set); a group whose reply is
    invalid keeps its previous value whatever the other replies are. *)
Theorem updatePlayerInfo_best_effort bus mc player service :
  playerInterface_ mc = Some player ->
  propertiesInterface_ mc = Some service ->
  let st := state mc in
  let st' := state (updatePlayerInfo bus mc) in
  currentPlayer_ st' = currentPlayer_ st
  /\ playerInterface_ (updatePlayerInfo bus mc) = Some player
  /\ propertiesInterface_ (updatePlayerInfo bus mc) = Some service
  /\ playbackStatus_ st'
     = match getPlaybackStatus bus service with
       | Some reply => parsePlaybackStatus reply
       | None => playbackStatus_ st
       end
  /\ (currentTitle_ st', currentArtist_ st', currentAlbum_ st',
      durationMs_ st', hasPosition_ st')
     = match getMetadata bus service with
       | Some metadata =>
           (xesam_title metadata,
            QString.join (xesam_artist metadata) ", ",
            xesam_album metadata,
            usToMs (toLongLong (mpris_length metadata)),
            0 <? usToMs (toLongLong (mpris_length metadata)))
       | None =>
           (currentTitle_ st, currentArtist_ st, currentAlbum_ st,
            durationMs_ st, hasPosition_ st)
       end
  /\ positionMs_ st'
     = (if hasPosition_ st' then
          match getPosition bus service with
          | Some reply => usToMs (toLongLong reply)
          | None => positionMs_ st
          end
        else positionMs_ st).
Proof.
  intros Hpl Hpr st st'.
  destruct (updatePlayerInfo_fields bus mc player service Hpl Hpr)
    as (Hcur & Hstatus & Hmeta & Hpos & _).
  destruct (updatePlayerInfo_frame bus mc) as (_ & Hpl' & Hpr' & _).
  rewrite Hpl', Hpr'. repeat split; assumption.
Qed.

(** The status query fails on a session that was [Paused]: the status is
    kept, metadata and position are still written. *)
Lemma updatePlayerInfo_best_effort_witness :
  let mc := with_interfaces (Some vlc) (Some vlc)
              (with_state (with_playbackStatus Paused
                             (with_currentPlayer vlc emptyState)) initial) in
  state (updatePlayerInfo statusDownBus mc)
  = {| currentPlayer_ := vlc;
       currentTitle_ := "So What";
       currentArtist_ := "Miles Davis, John Coltrane";
       currentAlbum_ := "Kind of Blue";
       playbackStatus_ := Paused;
       positionMs_ := 61500;
       durationMs_ := 562000;
       hasPosition_ := true |}.
Proof.
  intros mc.
  destruct (updatePlayerInfo_best_effort statusDownBus mc vlc vlc eq_refl eq_refl)
    as (Hcur & _ & _ & Hstatus & Hmeta & Hpos).
  cbv zeta in *.
  destruct (state (updatePlayerInfo statusDownBus mc)) as [c t a al ps pos d h].
  cbn [currentPlayer_ currentTitle_ currentArtist_ currentAlbum_ playbackStatus_
       positionMs_ durationMs_ hasPosition_] in *.
  injection Hmeta as -> -> -> -> ->. subst c ps pos. reflexivity.
Defined.

(** ** Seeking and unit conversion *)

(** C7.  Between slots, for a slider value [p] between 0 and 100 and the
    stored duration [D]: the position computed for setPosition is
    [floor (p * D / 100)] milliseconds, less than one millisecond below the
    exact [p * D * 10] microseconds; on a bound session with has-position set
    (so [0 < D]) the slot asks for the metadata and, when that reply is valid,
    calls SetPosition with that position times 1000; otherwise it sends
    nothing.  Both paths divide by 1000 with truncation on the way to
    milliseconds (the poll, and the seek before it calls setPosition), and
    setPosition multiplies by 1000: milliseconds survive a round trip
    unchanged, a wire value loses less than one millisecond, and converting
    again loses nothing more. *)
Theorem seek_percent_exact bus mc p :
  Inv mc ->
  0 <= p <= 100 ->
  let D := durationMs_ (state mc) in
  (0 <= D ->
     seekTargetMs p D = p * D / 100
     /\ 0 <= p * D * 10 - seekTargetMs p D * 1000 < 1000)
  /\ (hasPosition_ (state mc) = true -> 0 < D)
  /\ onPositionSliderChanged bus p mc
     = Some match playerInterface_ mc with
            | Some player =>
                if hasPosition_ (state mc) then
                  emits (EvGet player "Metadata" ::
                         match getMetadata bus player with
                         | Some metadata =>
                             [EvCall player
                                (SetPosition (mpris_trackid metadata)
                                   (p * D / 100 * 1000))]
                         | None => []
                         end) mc
                else mc
            | None => mc
            end
  /\ (forall ms, int_range ms ->
        msToUs ms = ms * 1000 /\ usToMs (msToUs ms) = ms)
  /\ (forall us, int_range (Z.quot us 1000) ->
        usToMs us = Z.quot us 1000
        /\ Z.abs (us - msToUs (usToMs us)) < 1000
        /\ usToMs (msToUs (usToMs us)) = usToMs us).
Proof.
  intros Hinv Hp D. subst D.
  pose proof (inv_duration mc Hinv) as Hrange.
  unfold int_range in Hrange.
  assert (Htarget : 0 <= durationMs_ (state mc) ->
                    seekTargetMs p (durationMs_ (state mc))
                    = p * durationMs_ (state mc) / 100)
    by (intros Hd; apply seekTargetMs_floor; lia).
  assert (Hknown : hasPosition_ (state mc) = true -> 0 < durationMs_ (state mc)).
  { rewrite (inv_hasPosition mc Hinv). apply Z.ltb_lt. }
  assert (Hround : forall ms, int_range ms -> usToMs (msToUs ms) = ms).
  { intros ms Hms. rewrite msToUs_exact by assumption.
    unfold usToMs. rewrite Z.quot_mul by lia. now apply to_int_id. }
  split; [| split; [exact Hknown | split; [| split]]].
  - intros Hd. split; [now apply Htarget |]. rewrite (Htarget Hd).
    pose proof (Z.div_mod (p * durationMs_ (state mc)) 100 ltac:(lia)) as Hdm.
    pose proof (Z.mod_pos_bound (p * durationMs_ (state mc)) 100 ltac:(lia)).
    lia.
  - unfold onPositionSliderChanged, setPosition.
    rewrite (inv_handles mc Hinv).
    destruct (playerInterface_ mc) as [player|]; [| reflexivity].
    destruct (hasPosition_ (state mc)); [| reflexivity]. cbn [negb].
    rewrite Htarget by (specialize (Hknown eq_refl); lia).
    assert (Hms : int_range (p * durationMs_ (state mc) / 100)).
    { rewrite <- Htarget by (specialize (Hknown eq_refl); lia).
      unfold seekTargetMs. apply to_int_range. }
    destruct (getMetadata bus player); unfold emit;
      rewrite ?emits_emits, ?msToUs_exact by assumption; reflexivity.
  - intros ms Hms. split; [now apply msToUs_exact | now apply Hround].
  - intros us Hus.
    assert (Hq : usToMs us = us ÷ 1000) by (unfold usToMs; now apply to_int_id).
    split; [exact Hq | split].
    + rewrite Hq, msToUs_exact by assumption.
      pose proof (Z.quot_rem' us 1000) as Hqr.
      pose proof (Z.rem_bound_abs us 1000 ltac:(lia)) as Hrem.
      replace (us - us ÷ 1000 * 1000) with (Z.rem us 1000) by lia.
      change (Z.abs 1000) with 1000 in Hrem. exact Hrem.
    + apply Hround. apply to_int_range.
Qed.

(** A 9 min 22 s track, slider moved to 37 percent. *)
Lemma seek_percent_exact_witness :
  let bus := sampleBus [(vlc, Some "Playing")] in
  let mc := construct bus in
  durationMs_ (state mc) = 562000
  /\ onPositionSliderChanged bus 37 mc
     = Some (emits [EvGet vlc "Metadata";
                    EvCall vlc (SetPosition "/org/mpris/MediaPlayer2/Track/1"
                                  207940000)] mc).
Proof.
  intros bus mc.
  destruct (seek_percent_exact bus mc 37 (Inv_construct bus))
    as (_ & _ & Hseek & _); [lia |].
  split; [reflexivity | exact Hseek].
Defined.

(** ** Display names *)

Lemma prefix_cons a s1 b s2 :
  String.prefix (String a s1) (String b s2)
  = if ascii_dec a b then String.prefix s1 s2 else false.
Proof. reflexivity. Qed.





Lemma splitFirst_absent s sep :
  QString.contains s sep = false -> QString.splitFirst s sep = s.
Proof.
  induction s as [|c s IH]; cbn [QString.contains QString.splitFirst];
    intros H; apply orb_false_elim in H as [Hp Hc]; rewrite Hp;
    [reflexivity | now rewrite IH].
Qed.

(** The fallback on the service name is a table lookup followed by one
    generic rule. *)
Lemma nameFromService_table service :
  nameFromService service
  = let displayName := QString.remove service kPrefix in
    match find (fun entry => QString.startsWith displayName (fst entry))
               wellKnownPlayers with
    | Some entry => snd entry
    | None => QString.capitalized (QString.splitFirst displayName ".instance")
    end.
Proof.
  unfold nameFromService. cbv zeta.
  generalize (QString.remove service kPrefix). intros displayName.
  cbn [find wellKnownPlayers fst snd].
  repeat (break_match; try reflexivity).
  now rewrite splitFirst_absent.
Qed.

Lemma prefix_split p s : String.prefix p s = true -> exists t, s = p ++ t.
Proof.
  revert s. induction p as [|a p IH]; intros s H.
  - now exists s.
  - destruct s as [|b s]; [discriminate |].
    rewrite prefix_cons in H. destruct (ascii_dec a b) as [<- |]; [| discriminate].
    destruct (IH s H) as (t & ->). now exists t.
Qed.

Lemma prefix_append p t : String.prefix p (p ++ t) = true.
Proof.
  induction p as [|a p IH]; [now destruct t |].
  cbn [append]. rewrite prefix_cons. now destruct (ascii_dec a a).
Qed.


(** While an occurrence is being dropped nothing is kept, and the scan
    resumes behind it. *)
Lemma removeFrom_skip pat p t :
  QString.removeFrom pat (String.length p) (p ++ t) = QString.removeFrom pat 0 t.
Proof.
  induction p as [|a p IH]; [reflexivity | exact IH].
Qed.

Lemma removeFrom_occurrence a pat t :
  QString.removeFrom (String a pat) 0 (String a pat ++ t)
  = QString.removeFrom (String a pat) 0 t.
Proof.
  cbn [append QString.removeFrom].
  change (String a (pat ++ t)) with (String a pat ++ t).
  rewrite prefix_append.
  replace (String.length (String a pat) - 1)%nat with (String.length pat)
    by (cbn [String.length]; lia).
  apply removeFrom_skip.
Qed.

Lemma removeFrom_kPrefix t :
  QString.removeFrom kPrefix 0 (kPrefix ++ t) = QString.removeFrom kPrefix 0 t.
Proof. exact (removeFrom_occurrence "o" "rg.mpris.MediaPlayer2." t). Qed.






(** ** The handles *)

(** C10.  At the entry of every slot (after the constructor or after any
    sequence of slots) the player handle is null exactly when the properties
    handle is, and exactly when the active identifier is empty; hence
    setPosition, and every slot, returns without calling through a null
    handle. *)
Theorem interfaces_paired mc :
  Reachable mc ->
  (playerInterface_ mc = None <-> propertiesInterface_ mc = None)
  /\ (playerInterface_ mc = None <-> currentPlayer_ (state mc) = "")
  /\ (forall bus positionMs, setPosition bus positionMs mc <> None)
  /\ (forall bus input, admissible mc input -> handle bus input mc <> None).
Proof.
  intros Hreach. pose proof (Reachable_Inv mc Hreach) as H.
  split; [| split; [| split]].
  - now rewrite (inv_handles mc H).
  - rewrite (inv_active mc H).
    destruct (currentPlayer_ (state mc)); cbn; split; congruence.
  - intros bus positionMs.
    destruct (setPosition_defined bus positionMs mc H) as (mc' & -> & _).
    discriminate.
  - intros bus input Hadm.
    destruct (Inv_handle bus input mc H Hadm) as (mc' & -> & _).
    discriminate.
Qed.

(** After start-up next to a playing player, and after that player was
    selected again from the menu. *)
Lemma interfaces_paired_witness :
  let bus := sampleBus [(vlc, Some "Playing")] in
  let mc := onPlayerSelected bus (Some (playerAction bus vlc vlc)) (construct bus) in
  playerInterface_ mc = Some vlc
  /\ propertiesInterface_ mc = Some vlc
  /\ setPosition bus 1000 mc <> None.
Proof.
  intros bus mc.
  assert (Hreach : Reachable mc).
  { apply (Reachable_handle bus (InPlayerSelected (Some (playerAction bus vlc vlc)))
             (construct bus)).
    - apply Reachable_construct.
    - split; [vm_compute; left; reflexivity | reflexivity].
    - reflexivity. }
  destruct (interfaces_paired mc Hreach) as (_ & _ & Hset & _).
  split; [vm_compute; reflexivity | split; [vm_compute; reflexivity | apply Hset]].
Defined.

(** ** Recovery after a failure *)






(** * Further properties of the controller *)

(** ** Selection and takeover, whatever the bus answers *)

Lemma bestPlayerLoop_safe bus services :
  forall bestPlayer bestStatus mc,
  exists es,
    trace (bestPlayerLoop bus services bestPlayer bestStatus mc)
    = (trace mc ++ es)%list
    /\ (exists rest, services = (probes es ++ rest)%list)
    /\ (binds es = []
        \/ exists s,
             binds es = [s]
             /\ (In s services
                 \/ (s = bestPlayer /\ QString.isEmpty bestPlayer = false))).
Proof.
  induction services as [|a l IH]; intros bestPlayer bestStatus mc.
  - cbn [bestPlayerLoop].
    destruct (QString.isEmpty bestPlayer) eqn:Hempty; cbn [negb].
    + exists []. rewrite app_nil_r. split; [reflexivity |].
      split; [now exists [] | now left].
    + destruct (connectToPlayer_trace bus bestPlayer mc) as (es & -> & Hp & Hb).
      exists (EvBind bestPlayer :: es). split; [reflexivity |].
      change (probes (EvBind bestPlayer :: es)) with (probes es).
      change (binds (EvBind bestPlayer :: es)) with (bestPlayer :: binds es).
      rewrite Hp, Hb. split; [now exists [] |].
      right. exists bestPlayer. split; [reflexivity | right; now split].
  - cbn [bestPlayerLoop].
    assert (Hnext : forall bp bs,
               bp = bestPlayer \/ bp = a ->
               exists es,
                 trace (bestPlayerLoop bus l bp bs (emit (EvProbe a) mc))
                 = (trace mc ++ es)%list
                 /\ (exists rest, a :: l = (probes es ++ rest)%list)
                 /\ (binds es = []
                     \/ exists s,
                          binds es = [s]
                          /\ (In s (a :: l)
                              \/ (s = bestPlayer
                                  /\ QString.isEmpty bestPlayer = false)))).
    { intros bp bs Hbp.
      destruct (IH bp bs (emit (EvProbe a) mc)) as (es & Htr & (rest & Hpre) & Hb).
      exists (EvProbe a :: es). split; [| split].
      - rewrite Htr. cbn. now rewrite <- app_assoc.
      - exists rest. change (probes (EvProbe a :: es)) with (a :: probes es).
        cbn. now rewrite <- Hpre.
      - change (binds (EvProbe a :: es)) with (binds es).
        destruct Hb as [Hb | (s & Hs & [Hin | [Heq Hne]])]; [now left | |];
          right; exists s; (split; [exact Hs |]).
        + left. now right.
        + destruct Hbp as [-> | ->]; [right; now split | left; now left]. }
    destruct (probeStatus bus a) as [status|]; [| apply Hnext; now left].
    destruct (PlaybackStatus_eqb status Playing).
    + destruct (connectToPlayer_trace bus a (emit (EvProbe a) mc))
        as (es & -> & Hp & Hb).
      exists (EvProbe a :: EvBind a :: es). split; [| split].
      * cbn. now rewrite <- app_assoc.
      * exists l. change (probes (EvProbe a :: EvBind a :: es)) with (a :: probes es).
        now rewrite Hp.
      * change (binds (EvProbe a :: EvBind a :: es)) with (a :: binds es).
        rewrite Hb. right. exists a. split; [reflexivity | left; now left].
    + destruct (PlaybackStatus_eqb status Paused
                && PlaybackStatus_eqb bestStatus Stopped)%bool;
        [apply Hnext; now right |].
      destruct (QString.isEmpty bestPlayer); apply Hnext; [now right | now left].
Qed.

(** X1.  connectToBestPlayer does nothing on an empty registry, and with
    exactly one candidate it binds that candidate without any status probe,
    whatever its playback status: when the player interface is valid the
    candidate is the active session afterwards. *)
Theorem connectToBestPlayer_sole_candidate bus mc :
  (availablePlayers_ mc = [] -> connectToBestPlayer bus mc = mc)
  /\ (forall only,
        availablePlayers_ mc = [only] ->
        probes (trace (connectToBestPlayer bus mc)) = probes (trace mc)
        /\ binds (trace (connectToBestPlayer bus mc))
           = (binds (trace mc) ++ [only])%list
        /\ (playerValid bus only = true ->
            connection (connectToBestPlayer bus mc) = Connected
            /\ currentPlayer_ (state (connectToBestPlayer bus mc)) = only)
        /\ (playerValid bus only = false ->
            observable (connectToBestPlayer bus mc) = observable initial)).
Proof.
  unfold connectToBestPlayer. split.
  - now intros ->.
  - intros only ->.
    destruct (connectToPlayer_trace bus only mc) as (es & Htr & Hp & Hb).
    rewrite Htr, probes_app, binds_app.
    change (probes (EvBind only :: es)) with (probes es).
    change (binds (EvBind only :: es)) with (only :: binds es).
    rewrite Hp, Hb, app_nil_r. split; [reflexivity | split; [reflexivity | split]].
    + intros Hvalid. unfold connection.
      destruct (connectToPlayer_bound bus only mc Hvalid) as (-> & -> & _).
      split; reflexivity.
    + intros Hvalid. now rewrite (connectToPlayer_unbound _ _ _ Hvalid).
Qed.

Lemma connectToBestPlayer_sole_candidate_witness :
  let bus := sampleBus [(vlc, Some "Stopped")] in
  let mc := connectToBestPlayer bus (with_availablePlayers [vlc] initial) in
  probes (trace mc) = [] /\ currentPlayer_ (state mc) = vlc.
Proof.
  intros bus mc.
  destruct (connectToBestPlayer_sole_candidate bus
              (with_availablePlayers [vlc] initial)) as (_ & H).
  destruct (H vlc eq_refl) as (Hp & _ & Hc & _).
  split; [exact Hp | now apply Hc].
Defined.

(** X2.  Whatever the bus answers, one run of connectToBestPlayer probes a
    prefix of the registry in registry order and attempts at most one
    connection, to a registered candidate. *)
Theorem connectToBestPlayer_safe bus mc :
  exists es,
    trace (connectToBestPlayer bus mc) = (trace mc ++ es)%list
    /\ (exists rest, availablePlayers_ mc = (probes es ++ rest)%list)
    /\ (binds es = []
        \/ exists s, binds es = [s] /\ In s (availablePlayers_ mc)).
Proof.
  unfold connectToBestPlayer.
  destruct (availablePlayers_ mc) as [|a [|b l]] eqn:Hav.
  - exists []. rewrite app_nil_r. split; [reflexivity |].
    split; [now exists [] | now left].
  - destruct (connectToPlayer_trace bus a mc) as (es & -> & Hp & Hb).
    exists (EvBind a :: es). split; [reflexivity |].
    change (probes (EvBind a :: es)) with (probes es).
    change (binds (EvBind a :: es)) with (a :: binds es).
    rewrite Hp, Hb. split; [now exists [a] |].
    right. exists a. split; [reflexivity | now left].
  - destruct (bestPlayerLoop_safe bus (a :: b :: l) "" Stopped mc)
      as (es & Htr & Hpre & Hb).
    exists es. split; [exact Htr | split; [exact Hpre |]].
    destruct Hb as [Hb | (s & Hs & [Hin | [_ Hne]])];
      [now left | right; now exists s | discriminate].
Qed.

Lemma betterPlayerLoop_safe bus services :
  forall mc,
  exists es,
    trace (betterPlayerLoop bus services mc) = (trace mc ++ es)%list
    /\ ((binds es = [] /\ betterPlayerLoop bus services mc = emits es mc)
        \/ exists s,
             binds es = [s]
             /\ In s services
             /\ s <> currentPlayer_ (state mc)
             /\ probedPlaying bus s).
Proof.
  induction services as [|a l IH]; intros mc.
  - exists []. cbn. rewrite app_nil_r. split; [reflexivity |].
    left. split; [reflexivity | now rewrite emits_nil].
  - cbn [betterPlayerLoop].
    destruct (String.eqb_spec a (currentPlayer_ (state mc))) as [Heq | Hneq].
    + destruct (IH mc) as (es & Htr & Hb). exists es. split; [exact Htr |].
      destruct Hb as [Hb | (s & Hs & Hin & Hrest)]; [now left |].
      right. exists s. split; [exact Hs | split; [now right | exact Hrest]].
    + assert (Hnext : exists es,
                 trace (betterPlayerLoop bus l (emit (EvProbe a) mc))
                 = (trace mc ++ es)%list
                 /\ ((binds es = []
                      /\ betterPlayerLoop bus l (emit (EvProbe a) mc) = emits es mc)
                     \/ exists s,
                          binds es = [s]
                          /\ In s (a :: l)
                          /\ s <> currentPlayer_ (state mc)
                          /\ probedPlaying bus s)).
      { destruct (IH (emit (EvProbe a) mc)) as (es & Htr & Hb).
        exists (EvProbe a :: es). split.
        - rewrite Htr. cbn. now rewrite <- app_assoc.
        - change (binds (EvProbe a :: es)) with (binds es).
          destruct Hb as [[Hb Heq] | (s & Hs & Hin & Hrest)].
          + left. split; [exact Hb |]. now rewrite Heq, emit_emits.
          + right. exists s. split; [exact Hs | split; [now right | exact Hrest]]. }
      destruct (probeStatus bus a) as [status|] eqn:Hprobe; [| exact Hnext].
      destruct (PlaybackStatus_eqb status Playing) eqn:Hst; [| exact Hnext].
      apply PlaybackStatus_eqb_eq in Hst. subst status.
      destruct (connectToPlayer_trace bus a (emit (EvProbe a) mc))
        as (es & -> & _ & Hb).
      exists (EvProbe a :: EvBind a :: es). split.
      * cbn. now rewrite <- app_assoc.
      * change (binds (EvProbe a :: EvBind a :: es)) with (a :: binds es).
        rewrite Hb. right. exists a.
        split; [reflexivity | split; [now left | split; assumption]].
Qed.

(** X3.  Whatever the bus answers, checkForBetterPlayer either attempts no
    connection and then changes nothing but the trace, or attempts exactly one
    connection, to a registered peer (never the active session) that it has
    just probed [Playing]. *)
Theorem checkForBetterPlayer_safe bus mc :
  exists es,
    trace (checkForBetterPlayer bus mc) = (trace mc ++ es)%list
    /\ ((binds es = [] /\ checkForBetterPlayer bus mc = emits es mc)
        \/ exists s,
             binds es = [s] /\ In s (peers mc) /\ probedPlaying bus s).
Proof.
  unfold checkForBetterPlayer.
  destruct (PlaybackStatus_eqb _ Playing).
  - exists []. rewrite app_nil_r. split; [reflexivity |].
    left. split; [reflexivity | now rewrite emits_nil].
  - destruct (betterPlayerLoop_safe bus (availablePlayers_ mc) mc)
      as (es & Htr & Hb).
    exists es. split; [exact Htr |].
    destruct Hb as [Hb | (s & Hs & Hin & Hneq & Hplay)]; [now left |].
    right. exists s. split; [exact Hs | split; [| exact Hplay]].
    apply filter_In. split; [exact Hin |].
    apply String.eqb_neq in Hneq. now rewrite Hneq.
Qed.

(** ** The registry and the submenu after a notification *)

Lemma updateAvailablePlayers_Fresh bus mc : Fresh bus (updateAvailablePlayers bus mc).
Proof.
  unfold Fresh, transportUp, playersOn, updateAvailablePlayers, submenuOf.
  destruct (connectionInterface bus); cbn; [| split; [reflexivity | discriminate]].
  destruct (registeredServiceNames bus) as [names|]; cbn;
    [| split; [reflexivity | discriminate]].
  split; [reflexivity | intros _].
  destruct (filter isMprisService names); reflexivity.
Qed.

Lemma updatePlayerInfo_submenu bus mc :
  playerSelectionMenu_ (menu_ (updatePlayerInfo bus mc))
  = playerSelectionMenu_ (menu_ mc).
Proof.
  unfold updatePlayerInfo.
  destruct (playerInterface_ mc); [| reflexivity].
  destruct (propertiesInterface_ mc) as [service|]; [| reflexivity].
  assert (H1 : forall m, playerSelectionMenu_ (menu_ (pollStatus bus service m))
                         = playerSelectionMenu_ (menu_ m))
    by (intros m; unfold pollStatus; now destruct (getPlaybackStatus bus service)).
  assert (H2 : forall m, playerSelectionMenu_ (menu_ (pollMetadata bus service m))
                         = playerSelectionMenu_ (menu_ m))
    by (intros m; unfold pollMetadata; now destruct (getMetadata bus service)).
  assert (H3 : forall m, playerSelectionMenu_ (menu_ (pollPosition bus service m))
                         = playerSelectionMenu_ (menu_ m)).
  { intros m. unfold pollPosition.
    destruct (hasPosition_ (state m)); [| reflexivity].
    destruct (getPosition bus service); [| reflexivity].
    cbn. now destruct (0 <? durationMs_ (state m)). }
  unfold updateTrackInfoLabel. cbn. now rewrite H3, H2, H1.
Qed.

Lemma updatePlayerInfo_Fresh bus bus' mc :
  Fresh bus mc -> Fresh bus (updatePlayerInfo bus' mc).
Proof.
  unfold Fresh. intros [Hav Hmenu].
  destruct (updatePlayerInfo_frame bus' mc) as (-> & _ & _ & ->).
  now rewrite updatePlayerInfo_submenu.
Qed.

Lemma emits_Fresh bus es mc : Fresh bus mc -> Fresh bus (emits es mc).
Proof. trivial. Qed.

(** Binding from an idle controller keeps the registry and the submenu in
    step with the bus, whether the bind succeeds or not. *)
Lemma connectToPlayer_Fresh bus service mc :
  Fresh bus mc ->
  currentPlayer_ (state mc) = "" ->
  Fresh bus (connectToPlayer bus service mc).
Proof.
  intros [Hav Hmenu] Hidle. unfold connectToPlayer.
  destruct (playerValid bus service); cbn [negb].
  - apply updatePlayerInfo_Fresh, updateAvailablePlayers_Fresh.
  - split; [exact Hav | intros Hup]. cbn. rewrite <- Hidle. now apply Hmenu.
Qed.

Lemma bestPlayerLoop_Fresh bus services :
  forall bestPlayer bestStatus mc,
    Fresh bus mc ->
    currentPlayer_ (state mc) = "" ->
    Fresh bus (bestPlayerLoop bus services bestPlayer bestStatus mc).
Proof.
  induction services as [|a l IH]; intros bestPlayer bestStatus mc HF Hidle;
    cbn [bestPlayerLoop].
  - destruct (QString.isEmpty bestPlayer); cbn [negb];
      [exact HF | now apply connectToPlayer_Fresh].
  - pose proof (emits_Fresh bus [EvProbe a] mc HF) as HF'.
    repeat break_match; try (apply IH; assumption).
    now apply connectToPlayer_Fresh.
Qed.

Lemma connectToBestPlayer_Fresh bus mc :
  Fresh bus mc ->
  currentPlayer_ (state mc) = "" ->
  Fresh bus (connectToBestPlayer bus mc).
Proof.
  intros HF Hidle. unfold connectToBestPlayer.
  destruct (availablePlayers_ mc) as [|a [|b l]];
    [exact HF | now apply connectToPlayer_Fresh | now apply bestPlayerLoop_Fresh].
Qed.

(** X4.  After a registration or an unregistration notification for a name
    of the player namespace, whichever branch the handler takes, the registry
    holds exactly the namespace names the bus lists, in the order of the bus
    (none when the bus cannot be enumerated); and when the bus could be
    enumerated the submenu lists exactly these players, checked exactly when
    they are the active session, or the placeholder alone when there is
    none. *)
Theorem notification_refreshes_registry bus service mc :
  isMprisService service = true ->
  Fresh bus (onDBusServiceRegistered bus service mc)
  /\ Fresh bus (onDBusServiceUnregistered bus service mc).
Proof.
  intros Hs. unfold isMprisService in Hs. split.
  - unfold onDBusServiceRegistered. rewrite Hs.
    pose proof (updateAvailablePlayers_Fresh bus mc) as HF.
    destruct (QString.isEmpty _) eqn:Hidle; cbn [andb]; [| exact HF].
    destruct (negb _); [| exact HF].
    apply connectToBestPlayer_Fresh; [exact HF |].
    now destruct (currentPlayer_ (state (updateAvailablePlayers bus mc))).
  - unfold onDBusServiceUnregistered. rewrite Hs.
    apply updateAvailablePlayers_Fresh.
Qed.

Lemma notification_refreshes_registry_witness :
  let bus := sampleBus [(vlc, Some "Paused"); (spotify, Some "Stopped")] in
  let mc := onDBusServiceRegistered bus spotify initial in
  availablePlayers_ mc = [vlc; spotify]
  /\ map (fun a => (data a, checked a)) (playerSelectionMenu_ (menu_ mc))
     = [(vlc, true); (spotify, false)].
Proof.
  intros bus mc.
  destruct (notification_refreshes_registry bus spotify initial eq_refl)
    as ((Hav & Hmenu) & _).
  split; [exact Hav |]. fold mc in Hmenu. rewrite (Hmenu eq_refl).
  vm_compute. reflexivity.
Defined.

(** X5.  A registration notification that arrives while a session is active
    only rescans: the state model and the connection are untouched, so a newly
    registered player never preempts the active one by registering. *)
Theorem registration_keeps_active bus service mc :
  currentPlayer_ (state mc) <> "" ->
  state (onDBusServiceRegistered bus service mc) = state mc
  /\ playerInterface_ (onDBusServiceRegistered bus service mc) = playerInterface_ mc
  /\ propertiesInterface_ (onDBusServiceRegistered bus service mc)
     = propertiesInterface_ mc
  /\ binds (trace (onDBusServiceRegistered bus service mc)) = binds (trace mc)
  /\ probes (trace (onDBusServiceRegistered bus service mc)) = probes (trace mc).
Proof.
  intros Hactive.
  destruct (updateAvailablePlayers_frame bus mc) as (Hst & Hpl & Hpr).
  destruct (updateAvailablePlayers_trace bus mc) as (es & Htr & Hp & Hb).
  assert (Hcases : onDBusServiceRegistered bus service mc = mc
                   \/ onDBusServiceRegistered bus service mc
                      = updateAvailablePlayers bus mc).
  { unfold onDBusServiceRegistered.
    destruct (QString.startsWith service kPrefix); [right | now left].
    rewrite Hst. destruct (currentPlayer_ (state mc)); [congruence | reflexivity]. }
  destruct Hcases as [-> | ->]; [repeat split |].
  rewrite Htr, probes_app, binds_app, Hp, Hb, !app_nil_r.
  repeat split; assumption.
Qed.

Lemma registration_keeps_active_witness :
  let before := sampleBus [(vlc, Some "Paused")] in
  let after := sampleBus [(vlc, Some "Paused"); (spotify, Some "Playing")] in
  state (onDBusServiceRegistered after spotify (construct before))
  = state (construct before).
Proof.
  intros before after.
  destruct (registration_keeps_active after spotify (construct before)) as (H & _).
  - vm_compute. discriminate.
  - exact H.
Defined.

(** ** The widgets and the idle state model between slots *)

Lemma Consistent_WidgetsAgree mc : Consistent mc -> WidgetsAgree mc.
Proof. intros [c1 c2 c3 c4 c5 c6 c7]. repeat split; tauto. Qed.

Lemma Consistent_emits es mc : Consistent mc -> Consistent (emits es mc).
Proof. intros [c1 c2 c3 c4 c5 c6 c7]. constructor; assumption. Qed.

Lemma Consistent_initial : Consistent initial.
Proof. constructor; cbn; try reflexivity; lia. Qed.

Lemma Consistent_disconnectFromPlayer mc :
  Consistent mc -> Consistent (disconnectFromPlayer mc).
Proof.
  intros [c1 c2 c3 c4 c5 c6 c7]. constructor; cbn; try reflexivity; assumption.
Qed.

Lemma WidgetsAgree_pollStatus bus service mc :
  WidgetsAgree mc -> WidgetsAgree (pollStatus bus service mc).
Proof.
  unfold WidgetsAgree, pollStatus.
  destruct (getPlaybackStatus bus service); cbn; tauto.
Qed.

Lemma WidgetsAgree_pollMetadata bus service mc :
  WidgetsAgree mc -> WidgetsAgree (pollMetadata bus service mc).
Proof.
  unfold WidgetsAgree, pollMetadata.
  destruct (getMetadata bus service); cbn; tauto.
Qed.

Lemma WidgetsAgree_pollPosition bus service mc :
  WidgetsAgree mc -> WidgetsAgree (pollPosition bus service mc).
Proof.
  unfold WidgetsAgree, pollPosition.
  destruct (hasPosition_ (state mc)) eqn:Hhas; [| rewrite Hhas; tauto].
  destruct (getPosition bus service); cbn; [| rewrite Hhas; tauto].
  destruct (0 <? durationMs_ (state mc)); cbn; rewrite ?Hhas;
    intros (h1 & h2 & h3 & h4 & h5); repeat split; try assumption; lia.
Qed.

Lemma Consistent_updatePlayerInfo bus mc :
  Inv mc -> Consistent mc -> Consistent (updatePlayerInfo bus mc).
Proof.
  intros Hinv Hcon.
  destruct (playerInterface_ mc) as [player|] eqn:Hpl;
    [| now rewrite updatePlayerInfo_unbound by auto].
  destruct (propertiesInterface_ mc) as [service|] eqn:Hpr;
    [| now rewrite updatePlayerInfo_unbound by auto].
  assert (Hactive : currentPlayer_ (state mc) <> "").
  { pose proof (inv_active mc Hinv) as Ha. rewrite Hpl in Ha.
    destruct (currentPlayer_ (state mc)); [discriminate | discriminate]. }
  destruct (updatePlayerInfo_frame bus mc) as (Hcur & Hpl' & _ & _).
  pose proof (WidgetsAgree_pollPosition bus service _
                (WidgetsAgree_pollMetadata bus service _
                   (WidgetsAgree_pollStatus bus service _
                      (Consistent_WidgetsAgree mc Hcon))))
    as (w1 & w2 & w3 & w4 & w5).
  assert (Hstep : forall m, playerInterface_
                    (pollPosition bus service
                       (pollMetadata bus service (pollStatus bus service m)))
                  = playerInterface_ m).
  { intros m. poll_steps bus service m. now rewrite Hpl3, Hpl2, Hpl1. }
  rewrite Hstep in w1, w2, w3.
  constructor; rewrite ?Hpl'; rewrite ?Hcur;
    rewrite ?(updatePlayerInfo_bound _ _ _ _ Hpl Hpr);
    try assumption; try reflexivity.
  intros Hempty. congruence.
Qed.

Lemma Consistent_updateAvailablePlayers bus mc :
  Consistent mc -> Consistent (updateAvailablePlayers bus mc).
Proof.
  intros [c1 c2 c3 c4 c5 c6 c7]. unfold updateAvailablePlayers.
  destruct (connectionInterface bus); cbn [negb]; [| constructor; assumption].
  destruct (registeredServiceNames bus); constructor; assumption.
Qed.

(** The members just after the two interfaces were created and the
    controls enabled, as connectToPlayer has them before it rescans. *)
Lemma connectToPlayer_valid bus service mc :
  playerValid bus service = true ->
  exists base,
    connectToPlayer bus service mc
    = updatePlayerInfo bus (updateAvailablePlayers bus base)
    /\ state base = with_currentPlayer service emptyState
    /\ playerInterface_ base = Some service
    /\ propertiesInterface_ base = Some service
    /\ availablePlayers_ base = availablePlayers_ mc
    /\ playerSelectionMenu_ (menu_ base) = playerSelectionMenu_ (menu_ mc)
    /\ positionSlider_ (menu_ base)
       = setSliderEnabled false (positionSlider_ (menu_ mc))
    /\ enabled (previousAction_ (menu_ base)) = true
    /\ enabled (playPauseAction_ (menu_ base)) = true
    /\ enabled (nextAction_ (menu_ base)) = true
    /\ trackInfoLabel_ (menu_ base) = "No media playing".
Proof.
  intros Hvalid. unfold connectToPlayer. rewrite Hvalid. cbn [negb].
  eexists. split; [reflexivity |]. repeat split.
Qed.

Lemma Good_connectToPlayer bus service mc :
  isMprisService service = true ->
  Inv mc -> Consistent mc ->
  Consistent (connectToPlayer bus service mc).
Proof.
  intros Hs Hinv Hcon.
  destruct (playerValid bus service) eqn:Hvalid.
  - destruct (connectToPlayer_valid bus service mc Hvalid)
      as (base & -> & Hst & Hpl & Hpr & Hav & Hmenu & Hsl & He1 & He2 & He3 & Hlab).
    pose proof (isMprisService_nonempty _ Hs) as Hne.
    assert (Hinvb : Inv base).
    { destruct Hinv as [h1 h2 h3 h4 h5 h6 h7].
      constructor; rewrite ?Hst, ?Hpl, ?Hpr, ?Hav, ?Hmenu; cbn;
        try assumption; try reflexivity.
      - now rewrite Hne.
      - unfold int_range; cbn; lia.
      - unfold int_range; cbn; lia. }
    assert (Hconb : Consistent base).
    { destruct Hcon as [c1 c2 c3 c4 c5 c6 c7].
      constructor; rewrite ?Hst, ?Hpl, ?Hsl, ?Hlab; cbn;
        try assumption; try reflexivity.
      intros ->. discriminate. }
    apply Consistent_updatePlayerInfo;
      [now apply Inv_updateAvailablePlayers
      | now apply Consistent_updateAvailablePlayers].
  - rewrite (connectToPlayer_unbound _ _ _ Hvalid).
    now apply Consistent_emits, Consistent_disconnectFromPlayer.
Qed.

Lemma Good_bestPlayerLoop bus services :
  Forall (fun s => isMprisService s = true) services ->
  forall bestPlayer bestStatus mc,
    bestPlayer = "" \/ isMprisService bestPlayer = true ->
    Inv mc -> Consistent mc ->
    Consistent (bestPlayerLoop bus services bestPlayer bestStatus mc).
Proof.
  induction 1 as [|a l Ha _ IH]; intros bestPlayer bestStatus mc Hb Hinv Hcon.
  - cbn. destruct Hb as [-> | Hb]; [exact Hcon |].
    rewrite (isMprisService_nonempty _ Hb). now apply Good_connectToPlayer.
  - cbn [bestPlayerLoop].
    pose proof (Inv_emits [EvProbe a] mc Hinv) as Hinv'.
    pose proof (Consistent_emits [EvProbe a] mc Hcon) as Hcon'.
    destruct (probeStatus bus a) as [status|]; [| now apply IH].
    repeat break_match; try (apply IH; auto).
    now apply Good_connectToPlayer.
Qed.

Lemma Good_connectToBestPlayer bus mc :
  Inv mc -> Consistent mc -> Consistent (connectToBestPlayer bus mc).
Proof.
  intros Hinv Hcon. pose proof (inv_players mc Hinv) as Hp.
  unfold connectToBestPlayer.
  destruct (availablePlayers_ mc) as [|a [|b l]] eqn:Hav; [exact Hcon | |].
  - inversion Hp; subst. now apply Good_connectToPlayer.
  - rewrite <- Hav in *. apply Good_bestPlayerLoop; auto.
Qed.

Lemma Good_betterPlayerLoop bus services :
  Forall (fun s => isMprisService s = true) services ->
  forall mc, Inv mc -> Consistent mc ->
             Consistent (betterPlayerLoop bus services mc).
Proof.
  induction 1 as [|a l Ha _ IH]; intros mc Hinv Hcon; [exact Hcon |].
  cbn [betterPlayerLoop].
  pose proof (Inv_emits [EvProbe a] mc Hinv) as Hinv'.
  pose proof (Consistent_emits [EvProbe a] mc Hcon) as Hcon'.
  repeat break_match; try (now apply IH).
  now apply Good_connectToPlayer.
Qed.

Lemma Good_refreshMediaInfo bus mc :
  Inv mc -> Consistent mc -> Consistent (refreshMediaInfo bus mc).
Proof.
  intros Hinv Hcon. unfold refreshMediaInfo.
  destruct (playerInterface_ mc); [| exact Hcon].
  pose proof (Inv_updatePlayerInfo bus mc Hinv) as Hinv'.
  pose proof (Consistent_updatePlayerInfo bus mc Hinv Hcon) as Hcon'.
  break_match; [| assumption].
  unfold checkForBetterPlayer. break_match; [assumption |].
  apply Good_betterPlayerLoop; [apply (inv_players _ Hinv') | |]; assumption.
Qed.

Lemma Good_onDBusServiceRegistered bus service mc :
  Inv mc -> Consistent mc -> Consistent (onDBusServiceRegistered bus service mc).
Proof.
  intros Hinv Hcon. unfold onDBusServiceRegistered.
  destruct (QString.startsWith service kPrefix); [| exact Hcon].
  pose proof (Inv_updateAvailablePlayers bus mc Hinv).
  pose proof (Consistent_updateAvailablePlayers bus mc Hcon).
  break_match; [now apply Good_connectToBestPlayer | assumption].
Qed.

Lemma Good_onDBusServiceUnregistered bus service mc :
  Inv mc -> Consistent mc -> Consistent (onDBusServiceUnregistered bus service mc).
Proof.
  intros Hinv Hcon. unfold onDBusServiceUnregistered.
  destruct (QString.startsWith service kPrefix); [| exact Hcon].
  apply Consistent_updateAvailablePlayers.
  destruct (String.eqb service (currentPlayer_ (state mc))); [| exact Hcon].
  pose proof (Inv_updateAvailablePlayers bus _ (Inv_disconnectFromPlayer mc Hinv)).
  pose proof (Consistent_updateAvailablePlayers bus _
                (Consistent_disconnectFromPlayer mc Hcon)).
  break_match; [now apply Good_connectToBestPlayer | assumption].
Qed.

Lemma Consistent_construct bus : Consistent (construct bus).
Proof.
  unfold construct.
  pose proof (Inv_updateAvailablePlayers bus initial Inv_initial).
  pose proof (Consistent_updateAvailablePlayers bus initial Consistent_initial).
  break_match; [now apply Good_connectToBestPlayer | assumption].
Qed.

Lemma Good_handle bus input mc mc' :
  Inv mc -> Consistent mc -> admissible mc input ->
  handle bus input mc = Some mc' -> Consistent mc'.
Proof.
  intros Hinv Hcon Hadm. destruct input; cbn [handle]; intros Hh;
    try (injection Hh as <-).
  - now apply Good_refreshMediaInfo.
  - unfold onPlayPause. repeat break_match; try exact Hcon; now apply Consistent_emits.
  - unfold onPrevious. repeat break_match; try exact Hcon; now apply Consistent_emits.
  - unfold onNext. repeat break_match; try exact Hcon; now apply Consistent_emits.
  - revert Hh. unfold onPositionSliderChanged, setPosition.
    repeat break_match; intros [= <-]; try exact Hcon;
      unfold emit; now repeat apply Consistent_emits.
  - unfold onPlayerSelected. destruct sender as [action|]; [| exact Hcon].
    destruct Hadm as [Hin Hen].
    apply Good_connectToPlayer; [| exact Hinv | exact Hcon].
    pose proof (inv_menu mc Hinv) as Hm.
    rewrite Forall_forall in Hm. now apply Hm.
  - now apply Good_onDBusServiceRegistered.
  - now apply Good_onDBusServiceUnregistered.
  - unfold mousePressEvent, onPlayPause, onNext.
    repeat break_match; try exact Hcon; now apply Consistent_emits.
Qed.

Lemma Reachable_Consistent mc : Reachable mc -> Consistent mc.
Proof.
  induction 1 as [bus | bus input mc mc' Hreach IH Hadm Hstep].
  - apply Consistent_construct.
  - eapply Good_handle; eauto. now apply Reachable_Inv.
Qed.

(** X6.  At the entry of every slot the widgets agree with the members they
    display: the Previous, Play/Pause and Next actions are enabled exactly
    while a session is bound, the position slider is enabled exactly when
    has-position is set and its value lies between 0 and 100, and the track
    label is the cached title, followed by a line with the artist when there
    is one, or "No media playing" when no title is cached. *)
Theorem widgets_follow_state mc :
  Reachable mc ->
  let bound := match connection mc with Connected => true | Disconnected => false end in
  enabled (previousAction_ (menu_ mc)) = bound
  /\ enabled (playPauseAction_ (menu_ mc)) = bound
  /\ enabled (nextAction_ (menu_ mc)) = bound
  /\ sliderEnabled (positionSlider_ (menu_ mc)) = hasPosition_ (state mc)
  /\ 0 <= value (positionSlider_ (menu_ mc)) <= 100
  /\ trackInfoLabel_ (menu_ mc)
     = (if QString.isEmpty (currentTitle_ (state mc)) then "No media playing"
        else if QString.isEmpty (currentArtist_ (state mc))
             then currentTitle_ (state mc)
             else currentTitle_ (state mc) ++ newline ++ currentArtist_ (state mc)).
Proof.
  intros Hreach bound. subst bound.
  destruct (Reachable_Consistent mc Hreach) as [c1 c2 c3 c4 c5 c6 c7].
  unfold connection. rewrite c2, c3, c4, c5, c7. unfold trackInfo.
  destruct (playerInterface_ mc); repeat split; try apply c6;
    destruct (QString.isEmpty (currentTitle_ (state mc)));
    destruct (QString.isEmpty (currentArtist_ (state mc))); reflexivity.
Qed.

Lemma widgets_follow_state_witness :
  let mc := construct (sampleBus [(vlc, Some "Playing")]) in
  enabled (playPauseAction_ (menu_ mc)) = true
  /\ sliderEnabled (positionSlider_ (menu_ mc)) = true
  /\ value (positionSlider_ (menu_ mc)) = 10.
Proof.
  intros mc.
  destruct (widgets_follow_state mc (Reachable_construct _))
    as (_ & Hplay & _ & Hslider & _).
  split; [exact Hplay | split; [exact Hslider | reflexivity]].
Defined.

(** X7.  At the entry of every slot a disconnected controller holds the
    empty state model: no title, artist, album, status, position or duration
    of an earlier session survives a disconnect or a failed bind. *)
Theorem disconnected_state_is_empty mc :
  Reachable mc ->
  connection mc = Disconnected ->
  state mc = emptyState.
Proof.
  intros Hreach Hdis.
  apply (con_idle mc (Reachable_Consistent mc Hreach)).
  pose proof (inv_active mc (Reachable_Inv mc Hreach)) as Ha.
  unfold connection in Hdis.
  destruct (playerInterface_ mc); [discriminate |].
  now destruct (currentPlayer_ (state mc)).
Qed.

Lemma disconnected_state_is_empty_witness :
  state (construct bindFailsBus) = emptyState.
Proof.
  apply disconnected_state_is_empty; [apply Reachable_construct | reflexivity].
Defined.

(** X8.  At the entry of every slot every name in the registry, and the
    data of every enabled entry of the player submenu, starts with the
    namespace prefix "org.mpris.MediaPlayer2."; in particular none is
    empty. *)
Theorem registry_in_namespace mc :
  Reachable mc ->
  (forall s, In s (availablePlayers_ mc) ->
             QString.startsWith s kPrefix = true /\ s <> "")
  /\ (forall a, In a (playerSelectionMenu_ (menu_ mc)) -> enabled a = true ->
                QString.startsWith (data a) kPrefix = true /\ data a <> "").
Proof.
  intros Hreach. pose proof (Reachable_Inv mc Hreach) as Hinv.
  pose proof (inv_players mc Hinv) as Hp. pose proof (inv_menu mc Hinv) as Hm.
  rewrite Forall_forall in Hp, Hm.
  assert (Hne : forall s, isMprisService s = true -> s <> "")
    by (intros s Hs ->; discriminate).
  split.
  - intros s Hin. split; [now apply Hp | apply Hne; now apply Hp].
  - intros a Hin Hen. split; [now apply Hm | apply Hne; now apply Hm].
Qed.

Lemma registry_in_namespace_witness :
  let mc := construct (sampleBus [(vlc, None); ("org.kde.plasmashell", None)]) in
  availablePlayers_ mc = [vlc]
  /\ QString.startsWith vlc kPrefix = true /\ vlc <> "".
Proof.
  intros mc. split; [reflexivity |].
  destruct (registry_in_namespace mc (Reachable_construct _)) as (H & _).
  apply H. vm_compute. left. reflexivity.
Defined.

(** X9.  At the entry of every slot has-position is set exactly when the
    stored duration is positive, and the stored duration and position are
    values of an [int]: a track whose length is unknown, zero or negative, or
    whose length in milliseconds wraps to a non-positive [int], cannot be
    seeked. *)
Theorem hasPosition_iff_duration mc :
  Reachable mc ->
  (hasPosition_ (state mc) = true <-> 0 < durationMs_ (state mc))
  /\ - 2 ^ 31 <= durationMs_ (state mc) < 2 ^ 31
  /\ - 2 ^ 31 <= positionMs_ (state mc) < 2 ^ 31
  /\ (hasPosition_ (state mc) = false ->
      forall bus p, onPositionSliderChanged bus p mc = Some mc).
Proof.
  intros Hreach. pose proof (Reachable_Inv mc Hreach) as Hinv.
  split; [| split; [apply (inv_duration mc Hinv) | split;
                    [apply (inv_position mc Hinv) |]]].
  - rewrite (inv_hasPosition mc Hinv). apply Z.ltb_lt.
  - intros Hno bus p. unfold onPositionSliderChanged. rewrite Hno.
    now destruct (playerInterface_ mc).
Qed.

Lemma hasPosition_iff_duration_witness :
  hasPosition_ (state (construct (sampleBus [(vlc, Some "Playing")]))) = true
  <-> 0 < durationMs_ (state (construct (sampleBus [(vlc, Some "Playing")]))).
Proof.
  apply hasPosition_iff_duration. apply Reachable_construct.
Defined.

(** ** Commands and the label *)

(** X10.  Between slots every command goes to the active session or
    nowhere.  With a session active, onPlayPause sends Pause when the cached
    status is [Playing] and Play otherwise, onPrevious sends Previous and
    onNext sends Next, each exactly once and to the active session; a left
    click does what onPlayPause does and a middle click what onNext does.
    With no session active each of them, and a timer tick, changes nothing and
    sends nothing.  No command changes the state model. *)
Theorem commands_go_to_active mc :
  Inv mc ->
  let active := currentPlayer_ (state mc) in
  let send m := if QString.isEmpty active then mc else emit (EvCall active m) mc in
  let toggle :=
    if PlaybackStatus_eqb (playbackStatus_ (state mc)) Playing then Pause else Play in
  onPlayPause mc = send toggle
  /\ onPrevious mc = send Previous
  /\ onNext mc = send Next
  /\ mousePressEvent LeftButton mc = send toggle
  /\ mousePressEvent MiddleButton mc = send Next
  /\ mousePressEvent RightButton mc = mc
  /\ mousePressEvent OtherButton mc = mc
  /\ (active = "" -> forall bus, refreshMediaInfo bus mc = mc).
Proof.
  intros Hinv active send toggle. subst active send toggle.
  pose proof (inv_active mc Hinv) as Ha.
  unfold mousePressEvent, onPlayPause, onPrevious, onNext, refreshMediaInfo.
  rewrite Ha.
  destruct (currentPlayer_ (state mc)) as [|c cur]; cbn [QString.isEmpty];
    repeat split; try discriminate;
    now destruct (PlaybackStatus_eqb _ Playing).
Qed.

Lemma commands_go_to_active_witness :
  let mc := construct (sampleBus [(vlc, Some "Playing")]) in
  onPlayPause mc = emit (EvCall vlc Pause) mc
  /\ mousePressEvent MiddleButton mc = emit (EvCall vlc Next) mc.
Proof.
  intros mc.
  destruct (commands_go_to_active mc (Inv_construct _))
    as (Hpp & _ & _ & _ & Hmid & _).
  split; [exact Hpp | exact Hmid].
Defined.

Lemma prefix_refl s : String.prefix s s = true.
Proof.
  induction s as [|a s IH]; [reflexivity |].
  rewrite prefix_cons. now destruct (ascii_dec a a).
Qed.

(** X11.  getLabel never returns the empty string, for any members and any
    bus, although the display name it may append can be empty: with no active
    session it is "Media Controls: No player"; with a cached title it starts
    with the title; otherwise it starts with "Media Controls: ". *)
Theorem getLabel_nonempty bus mc :
  getLabel bus mc <> ""
  /\ (currentPlayer_ (state mc) = "" -> getLabel bus mc = "Media Controls: No player")
  /\ (currentPlayer_ (state mc) <> "" ->
      currentTitle_ (state mc) <> "" ->
      QString.startsWith (getLabel bus mc) (currentTitle_ (state mc)) = true)
  /\ (currentPlayer_ (state mc) <> "" ->
      currentTitle_ (state mc) = "" ->
      getLabel bus mc
      = "Media Controls: " ++ getPlayerDisplayName bus (currentPlayer_ (state mc))).
Proof.
  unfold getLabel.
  destruct (currentPlayer_ (state mc)) as [|c cur]; cbn [QString.isEmpty].
  - repeat split; try discriminate; congruence.
  - destruct (currentTitle_ (state mc)) as [|t title] eqn:Ht;
      cbn [QString.isEmpty negb].
    + repeat split; try discriminate; congruence.
    + split; [| split; [congruence | split; [| congruence]]].
      * destruct (QString.isEmpty (currentArtist_ (state mc))); discriminate.
      * intros _ _. unfold QString.startsWith.
        destruct (QString.isEmpty (currentArtist_ (state mc))); cbn [negb].
        -- apply prefix_refl.
        -- apply prefix_append.
Qed.

(** ** Polling and binding again *)

Lemma updatePlayerInfo_state bus mc player service :
  playerInterface_ mc = Some player ->
  propertiesInterface_ mc = Some service ->
  state (updatePlayerInfo bus mc) = polledState bus service (state mc).
Proof.
  intros Hpl Hpr. rewrite (updatePlayerInfo_bound bus mc _ _ Hpl Hpr).
  poll_steps bus service mc.
  rewrite Hst4, Hst3, Hst2, Hst1. reflexivity.
Qed.

Lemma polledState_again bus service st :
  polledState bus service (polledState bus service st) = polledState bus service st.
Proof.
  destruct st as [cur title artist album status pos dur has].
  unfold polledState.
  destruct (getPlaybackStatus bus service) as [reply|],
           (getMetadata bus service) as [metadata|],
           (getPosition bus service) as [position|];
    cbn [with_playbackStatus with_metadata with_positionMs hasPosition_
         currentPlayer_ currentTitle_ currentArtist_ currentAlbum_
         playbackStatus_ positionMs_ durationMs_].
  all: try (destruct (0 <? usToMs (toLongLong (mpris_length metadata))) eqn:Hlen;
            cbn [with_playbackStatus with_metadata with_positionMs hasPosition_
                 currentPlayer_ currentTitle_ currentArtist_ currentAlbum_
                 playbackStatus_ positionMs_ durationMs_];
            rewrite ?Hlen; reflexivity).
  all: destruct has; reflexivity.
Qed.

(** X12.  Polling twice against an unchanged bus leaves the state model as
    polling once does: whatever the replies, and whichever of them fail, a
    second poll writes nothing new. *)
Theorem updatePlayerInfo_idempotent bus mc :
  state (updatePlayerInfo bus (updatePlayerInfo bus mc))
  = state (updatePlayerInfo bus mc).
Proof.
  destruct (playerInterface_ mc) as [player|] eqn:Hpl;
    [| now rewrite !(updatePlayerInfo_unbound bus mc) by auto].
  destruct (propertiesInterface_ mc) as [service|] eqn:Hpr;
    [| now rewrite !(updatePlayerInfo_unbound bus mc) by auto].
  destruct (updatePlayerInfo_frame bus mc) as (_ & Hpl' & Hpr' & _).
  rewrite Hpl in Hpl'. rewrite Hpr in Hpr'.
  rewrite (updatePlayerInfo_state bus _ _ _ Hpl' Hpr').
  rewrite (updatePlayerInfo_state bus _ _ _ Hpl Hpr).
  apply polledState_again.
Qed.

(** X13.  The state model and the handles after connectToPlayer do not
    depend on the members before it: nothing of the previous session, not even
    a field whose query fails on the new one, is carried over. *)
Theorem connectToPlayer_forgets bus service mc1 mc2 :
  state (connectToPlayer bus service mc1) = state (connectToPlayer bus service mc2)
  /\ playerInterface_ (connectToPlayer bus service mc1)
     = playerInterface_ (connectToPlayer bus service mc2)
  /\ propertiesInterface_ (connectToPlayer bus service mc1)
     = propertiesInterface_ (connectToPlayer bus service mc2).
Proof.
  destruct (playerValid bus service) eqn:Hvalid.
  - destruct (connectToPlayer_bound bus service mc1 Hvalid) as (_ & -> & ->).
    destruct (connectToPlayer_bound bus service mc2 Hvalid) as (_ & -> & ->).
    split; [| split; reflexivity].
    destruct (connectToPlayer_valid bus service mc1 Hvalid)
      as (b1 & -> & Hst1 & Hpl1 & Hpr1 & _).
    destruct (connectToPlayer_valid bus service mc2 Hvalid)
      as (b2 & -> & Hst2 & Hpl2 & Hpr2 & _).
    destruct (updateAvailablePlayers_frame bus b1) as (Hs1 & Hp1 & Hq1).
    destruct (updateAvailablePlayers_frame bus b2) as (Hs2 & Hp2 & Hq2).
    rewrite (updatePlayerInfo_state bus _ service service)
      by (rewrite ?Hp1, ?Hq1; assumption).
    rewrite (updatePlayerInfo_state bus _ service service)
      by (rewrite ?Hp2, ?Hq2; assumption).
    now rewrite Hs1, Hs2, Hst1, Hst2.
  - rewrite !(connectToPlayer_unbound _ _ _ Hvalid). repeat split.
Qed.

(** X14.  A bound session whose status query answers "Playing" is never
    taken over: the timer slot then only polls, attempts no connection and
    probes no peer, whatever the peers report.  In particular the tick that
    follows a switch to a peer probed [Playing] keeps that peer, so two
    playing sessions do not alternate. *)
Theorem playing_session_is_kept bus mc player service reply :
  playerInterface_ mc = Some player ->
  propertiesInterface_ mc = Some service ->
  getPlaybackStatus bus service = Some reply ->
  parsePlaybackStatus reply = Playing ->
  refreshMediaInfo bus mc = updatePlayerInfo bus mc
  /\ currentPlayer_ (state (refreshMediaInfo bus mc)) = currentPlayer_ (state mc)
  /\ binds (trace (refreshMediaInfo bus mc)) = binds (trace mc)
  /\ probes (trace (refreshMediaInfo bus mc)) = probes (trace mc)
  /\ (forall peer,
        playerValid bus peer = true ->
        probedPlaying bus peer ->
        let switched := connectToPlayer bus peer mc in
        refreshMediaInfo bus switched = updatePlayerInfo bus switched
        /\ currentPlayer_ (state (refreshMediaInfo bus switched)) = peer).
Proof.
  intros Hpl Hpr Hreply Hplaying.
  assert (Hkeep : forall m p s r,
             playerInterface_ m = Some p ->
             propertiesInterface_ m = Some s ->
             getPlaybackStatus bus s = Some r ->
             parsePlaybackStatus r = Playing ->
             refreshMediaInfo bus m = updatePlayerInfo bus m).
  { intros m p s r Hp Hs Hr Hplay. unfold refreshMediaInfo. rewrite Hp.
    destruct (updatePlayerInfo_fields bus m p s Hp Hs) as (_ & Hstatus & _).
    cbv zeta in Hstatus. rewrite Hr, Hplay in Hstatus. rewrite Hstatus.
    cbn. now rewrite andb_false_r. }
  destruct (updatePlayerInfo_frame bus mc) as (Hcur & _).
  destruct (updatePlayerInfo_trace bus mc) as (es & Htr & Hp & Hb).
  rewrite (Hkeep mc _ _ _ Hpl Hpr Hreply Hplaying).
  split; [reflexivity | split; [exact Hcur | split; [| split]]].
  - now rewrite Htr, binds_app, Hb, app_nil_r.
  - now rewrite Htr, probes_app, Hp, app_nil_r.
  - intros peer Hvalid Hprobe switched. subst switched.
    destruct (connectToPlayer_bound bus peer mc Hvalid) as (Hc & Hpl' & Hpr').
    unfold probedPlaying, probeStatus in Hprobe.
    destruct (propertiesValid bus peer); [| discriminate].
    destruct (getPlaybackStatus bus peer) as [r|] eqn:Hr; [| discriminate].
    cbn in Hprobe. injection Hprobe as Hplay.
    rewrite (Hkeep _ _ _ _ Hpl' Hpr' Hr Hplay).
    split; [reflexivity |].
    destruct (updatePlayerInfo_frame bus (connectToPlayer bus peer mc)) as (-> & _).
    exact Hc.
Qed.

Lemma playing_session_is_kept_witness :
  let bus := sampleBus [(vlc, Some "Playing"); (spotify, Some "Playing")] in
  let mc := construct bus in
  currentPlayer_ (state mc) = vlc
  /\ currentPlayer_ (state (refreshMediaInfo bus mc)) = vlc.
Proof.
  intros bus mc.
  destruct (playing_session_is_kept bus mc vlc vlc "Playing")
    as (_ & Hcur & _); try reflexivity.
  split; [reflexivity | rewrite Hcur; reflexivity].
Defined.

(** ** Names without an instance suffix *)

Lemma hasDot_append p t : hasDot (p ++ t) = hasDot p || hasDot t.
Proof.
  induction p as [|a p IH]; [reflexivity |].
  cbn [append hasDot]. now rewrite IH, orb_assoc.
Qed.

Lemma hasDot_prefix p s :
  hasDot p = true -> hasDot s = false -> String.prefix p s = false.
Proof.
  intros Hp Hs. destruct (String.prefix p s) eqn:Hpre; [| reflexivity].
  destruct (prefix_split _ _ Hpre) as (t & ->).
  rewrite hasDot_append, Hp in Hs. discriminate.
Qed.

Lemma hasDot_tail c s : hasDot (String c s) = false -> hasDot s = false.
Proof. cbn [hasDot]. intros H. now apply orb_false_elim in H. Qed.

Lemma removeFrom_absent pat s :
  hasDot pat = true -> hasDot s = false -> QString.removeFrom pat 0 s = s.
Proof.
  intros Hp. induction s as [|c s IH]; intros Hs; [reflexivity |].
  cbn [QString.removeFrom]. rewrite (hasDot_prefix _ _ Hp Hs).
  now rewrite IH by exact (hasDot_tail _ _ Hs).
Qed.

Lemma contains_absent pat s :
  hasDot pat = true -> hasDot s = false -> QString.contains s pat = false.
Proof.
  intros Hp. induction s as [|c s IH]; intros Hs; cbn [QString.contains];
    rewrite (hasDot_prefix _ _ Hp Hs); [reflexivity |].
  now rewrite IH by exact (hasDot_tail _ _ Hs).
Qed.

(** X15.  When neither property yields a name, a player registered under
    the prefix followed by a name without a dot is shown under that name with
    its first character upper-cased.  The well-known table applies to names
    with an instance suffix only: plain "vlc" is shown as "Vlc". *)
Theorem plain_name_display bus name :
  hasDot name = false ->
  nameFromProperties bus (kPrefix ++ name) = None ->
  getPlayerDisplayName bus (kPrefix ++ name) = QString.capitalized name.
Proof.
  intros Hdot Hprops. unfold getPlayerDisplayName. rewrite Hprops.
  assert (Hp : forall p, hasDot p = true -> String.prefix p name = false)
    by (intros p H; exact (hasDot_prefix p name H Hdot)).
  rewrite nameFromService_table. cbv zeta.
  unfold QString.remove. cbn [QString.isEmpty kPrefix]. fold kPrefix.
  rewrite removeFrom_kPrefix, (removeFrom_absent kPrefix name eq_refl Hdot).
  cbn [find wellKnownPlayers fst snd]. unfold QString.startsWith.
  rewrite !Hp by reflexivity.
  now rewrite (splitFirst_absent _ _ (contains_absent ".instance" name eq_refl Hdot)).
Qed.

Lemma plain_name_display_witness :
  getPlayerDisplayName (sampleBus [(vlc, Some "Playing")]) vlc = "Vlc".
Proof.
  exact (plain_name_display (sampleBus [(vlc, Some "Playing")]) "vlc"
           eq_refl eq_refl).
Defined.

(** ** The position slider *)

Lemma pollPosition_slider bus service mc reply :
  getPosition bus service = Some reply ->
  hasPosition_ (state (pollPosition bus service mc)) = true ->
  0 < durationMs_ (state (pollPosition bus service mc)) ->
  value (positionSlider_ (menu_ (pollPosition bus service mc)))
  = Z.max 0
      (Z.min
         (Z.quot (to_int (positionMs_ (state (pollPosition bus service mc)) * 100))
                 (durationMs_ (state (pollPosition bus service mc))))
         100).
Proof.
  intros Hreply. unfold pollPosition. rewrite Hreply.
  destruct (hasPosition_ (state mc)) eqn:Hhas; [| congruence].
  cbv zeta.
  cbn [state with_state emit emits with_positionMs durationMs_ positionMs_
       hasPosition_ menu_].
  destruct (0 <? durationMs_ (state mc)) eqn:Hd; [reflexivity |].
  cbn. intros _ Hdur. apply Z.ltb_lt in Hdur. congruence.
Qed.

(** X16.  After a poll that obtained the position of a track with a known
    length, the slider shows the elapsed part of the track as a whole
    percentage, rounded down and capped at 100, provided the position times
    100 fits an [int]. *)
Theorem slider_shows_percentage bus mc player service reply :
  playerInterface_ mc = Some player ->
  propertiesInterface_ mc = Some service ->
  getPosition bus service = Some reply ->
  hasPosition_ (state (updatePlayerInfo bus mc)) = true ->
  0 < durationMs_ (state (updatePlayerInfo bus mc)) ->
  0 <= positionMs_ (state (updatePlayerInfo bus mc)) ->
  positionMs_ (state (updatePlayerInfo bus mc)) * 100 < 2 ^ 31 ->
  value (positionSlider_ (menu_ (updatePlayerInfo bus mc)))
  = Z.min 100
      (positionMs_ (state (updatePlayerInfo bus mc)) * 100
       / durationMs_ (state (updatePlayerInfo bus mc))).
Proof.
  intros Hpl Hpr Hreply.
  rewrite (updatePlayerInfo_bound bus mc _ _ Hpl Hpr).
  set (m2 := pollMetadata bus service (pollStatus bus service mc)).
  change (state (updateTrackInfoLabel (pollPosition bus service m2)))
    with (state (pollPosition bus service m2)).
  change (positionSlider_ (menu_ (updateTrackInfoLabel (pollPosition bus service m2))))
    with (positionSlider_ (menu_ (pollPosition bus service m2))).
  intros Hhas Hdur Hpos Hfit.
  rewrite (pollPosition_slider bus service m2 reply Hreply Hhas Hdur).
  rewrite to_int_id by (unfold int_range; lia).
  rewrite Z.quot_div_nonneg by lia.
  assert (0 <= positionMs_ (state (pollPosition bus service m2)) * 100
               / durationMs_ (state (pollPosition bus service m2)))
    by (apply Z.div_pos; lia).
  lia.
Qed.

Lemma slider_shows_percentage_witness :
  let bus := sampleBus [(vlc, Some "Playing")] in
  value (positionSlider_ (menu_ (updatePlayerInfo bus (construct bus)))) = 10.
Proof.
  intros bus.
  rewrite (slider_shows_percentage bus (construct bus) vlc vlc 61500999);
    vm_compute; solve [reflexivity | discriminate].
Defined.

(** ** Playback commands *)

Lemma calls_app es1 es2 : calls (es1 ++ es2) = (calls es1 ++ calls es2)%list.
Proof. apply flat_map_app. Qed.

Lemma calls_map_EvDisplayName l : calls (map EvDisplayName l) = [].
Proof. induction l as [|a l IH]; [reflexivity | exact IH]. Qed.

Lemma calls_emits es c mc :
  calls es = [] -> calls (trace mc) = c -> calls (trace (emits es mc)) = c.
Proof.
  intros Hes <-. unfold emits; cbn. now rewrite calls_app, Hes, app_nil_r.
Qed.

Lemma calls_disconnectFromPlayer c mc :
  calls (trace mc) = c -> calls (trace (disconnectFromPlayer mc)) = c.
Proof. intros H. exact H. Qed.

Lemma calls_updatePlayerInfo bus c mc :
  calls (trace mc) = c -> calls (trace (updatePlayerInfo bus mc)) = c.
Proof.
  intros <-.
  destruct (playerInterface_ mc) as [player|] eqn:Hpl;
    [| now rewrite (updatePlayerInfo_unbound bus mc) by auto].
  destruct (propertiesInterface_ mc) as [service|] eqn:Hpr;
    [| now rewrite (updatePlayerInfo_unbound bus mc) by auto].
  rewrite (updatePlayerInfo_bound _ _ _ _ Hpl Hpr).
  poll_steps bus service mc.
  rewrite Htr4, Htr3, Htr2, Htr1, !calls_app.
  destruct (hasPosition_ _); cbn; now rewrite !app_nil_r.
Qed.

Lemma calls_updateAvailablePlayers bus c mc :
  calls (trace mc) = c -> calls (trace (updateAvailablePlayers bus mc)) = c.
Proof.
  intros <-. rewrite updateAvailablePlayers_trace_eq, calls_app.
  unfold rescanEvents.
  destruct (connectionInterface bus); [| apply app_nil_r].
  change (calls (EvRegisteredServiceNames :: ?es)) with (calls es).
  destruct (registeredServiceNames bus) as [names|];
    rewrite ?calls_map_EvDisplayName; apply app_nil_r.
Qed.

Lemma calls_connectToPlayer bus service c mc :
  calls (trace mc) = c -> calls (trace (connectToPlayer bus service mc)) = c.
Proof.
  intros H. unfold connectToPlayer.
  destruct (playerValid bus service); cbn [negb].
  - apply calls_updatePlayerInfo, calls_updateAvailablePlayers.
    cbn. now rewrite calls_app, H, app_nil_r.
  - cbn. now rewrite calls_app, H, app_nil_r.
Qed.

Lemma calls_bestPlayerLoop bus c services :
  forall bestPlayer bestStatus mc,
    calls (trace mc) = c ->
    calls (trace (bestPlayerLoop bus services bestPlayer bestStatus mc)) = c.
Proof.
  induction services as [|a l IH]; intros bestPlayer bestStatus mc H.
  - cbn. break_match; [now apply calls_connectToPlayer | exact H].
  - cbn [bestPlayerLoop].
    pose proof (calls_emits [EvProbe a] c mc eq_refl H) as H'.
    destruct (probeStatus bus a) as [status|]; [| now apply IH].
    repeat break_match; try (now apply IH).
    now apply calls_connectToPlayer.
Qed.

Lemma calls_connectToBestPlayer bus c mc :
  calls (trace mc) = c -> calls (trace (connectToBestPlayer bus mc)) = c.
Proof.
  intros H. unfold connectToBestPlayer.
  destruct (availablePlayers_ mc) as [|a [|b l]]; [exact H | |].
  - now apply calls_connectToPlayer.
  - now apply calls_bestPlayerLoop.
Qed.

Lemma calls_betterPlayerLoop bus c services :
  forall mc,
    calls (trace mc) = c -> calls (trace (betterPlayerLoop bus services mc)) = c.
Proof.
  induction services as [|a l IH]; intros mc H; [exact H |].
  cbn [betterPlayerLoop].
  pose proof (calls_emits [EvProbe a] c mc eq_refl H) as H'.
  repeat break_match; try (now apply IH).
  now apply calls_connectToPlayer.
Qed.

Lemma calls_refreshMediaInfo bus c mc :
  calls (trace mc) = c -> calls (trace (refreshMediaInfo bus mc)) = c.
Proof.
  intros H. unfold refreshMediaInfo.
  destruct (playerInterface_ mc); [| exact H].
  pose proof (calls_updatePlayerInfo bus c mc H) as H'.
  break_match; [| exact H'].
  unfold checkForBetterPlayer. break_match; [exact H' |].
  now apply calls_betterPlayerLoop.
Qed.

Lemma calls_construct bus : calls (trace (construct bus)) = [].
Proof.
  unfold construct.
  pose proof (calls_updateAvailablePlayers bus [] initial eq_refl) as H.
  break_match; [now apply calls_connectToBestPlayer | exact H].
Qed.

(** X17.  Playback is never commanded on the controller's own account.
    The constructor, the timer slot, both bus notification slots and the
    player selection slot send no Play, Pause, Previous, Next or SetPosition
    to any player, whichever session they bind or drop: after each of them the
    commands sent so far are those sent before. *)
Theorem automatic_slots_send_no_command bus mc :
  calls (trace (construct bus)) = []
  /\ calls (trace (refreshMediaInfo bus mc)) = calls (trace mc)
  /\ (forall service,
        calls (trace (onDBusServiceRegistered bus service mc)) = calls (trace mc))
  /\ (forall service,
        calls (trace (onDBusServiceUnregistered bus service mc)) = calls (trace mc))
  /\ (forall sender,
        calls (trace (onPlayerSelected bus sender mc)) = calls (trace mc)).
Proof.
  split; [apply calls_construct |].
  split; [now apply calls_refreshMediaInfo |].
  split; [| split].
  - intros service. unfold onDBusServiceRegistered.
    destruct (QString.startsWith service kPrefix); [| reflexivity].
    pose proof (calls_updateAvailablePlayers bus _ mc eq_refl) as H.
    break_match; [now apply calls_connectToBestPlayer | exact H].
  - intros service. unfold onDBusServiceUnregistered.
    destruct (QString.startsWith service kPrefix); [| reflexivity].
    apply calls_updateAvailablePlayers.
    destruct (String.eqb service (currentPlayer_ (state mc))); [| reflexivity].
    pose proof (calls_updateAvailablePlayers bus _ (disconnectFromPlayer mc) eq_refl) as H.
    break_match; [now apply calls_connectToBestPlayer | exact H].
  - intros [action|]; [now apply calls_connectToPlayer | reflexivity].
Qed.

(** ** Disconnecting *)







